(** * Game of Life engine of [main.py]: a shallow embedding

    The simulation engine of the program consists of the module-level grid
    (a numpy matrix of machine integers), [update_grid], which computes the
    next generation, and [toggle_cell], which edits one cell from a cursor
    position.  Arrays are Python objects: they live in a store and are passed
    by reference, [update_grid] allocates its result with [np.copy], and
    [toggle_cell] writes into the array it is handed.  The embedding keeps
    that structure: a store of arrays, a state-and-exception monad over it,
    and the loops of the source written as loops over Python's [range]. *)

From Stdlib Require Import ZArith Lia List Bool String Floats Uint63.
From stdpp Require Import base option list gmap strings.

Local Open Scope Z_scope.

(** ** Python objects, exceptions and the store *)

(** The exceptions the modelled fragment can raise.  [InvalidRef] is not a
    Python exception: it is what the model answers when a location that was
    never allocated is dereferenced, which no Python program can do. *)
Inductive exn : Type :=
  | IndexError
  | ZeroDivisionError
  | ValueError
  | MemoryError
  | InvalidRef.

Inductive outcome (A : Type) : Type :=
  | Return (a : A)
  | Raise (e : exn).

Arguments Return {A} a.
Arguments Raise {A} e.

(** A two-dimensional [np.ndarray] with [dtype=int], stored row by row.  The
    shape is read off the lists, so an array without rows does not remember
    its number of columns. *)
Abbreviation ndarray := (list (list Z)).

Definition loc : Type := positive.

Abbreviation heap := (gmap loc ndarray).

(** Computations that read and write the store and may raise. *)
Definition M (A : Type) : Type := heap -> outcome (A * heap).

Definition ret {A} (a : A) : M A := fun h => Return (a, h).

Definition bind {A B} (m : M A) (k : A -> M B) : M B :=
  fun h =>
    match m h with
    | Return (a, h') => k a h'
    | Raise e => Raise e
    end.

Definition raise {A} (e : exn) : M A := fun _ => Raise e.

Declare Scope py_scope.
Delimit Scope py_scope with py.
Notation "x <- c ;; k" := (bind c (fun x => k))
  (at level 100, c at next level, right associativity) : py_scope.
Notation "c ;;; k" := (bind c (fun _ => k))
  (at level 100, right associativity) : py_scope.
Local Open Scope py_scope.

(** [for x in xs: body], for a body that communicates through the store. *)
Fixpoint for_ {A} (xs : list A) (body : A -> M unit) : M unit :=
  match xs with
  | [] => ret tt
  | x :: xs' => body x ;;; for_ xs' body
  end.

(** [for x in xs: body], for a body that also rebinds one local variable. *)
Fixpoint for_var {A V} (xs : list A) (v : V) (body : A -> V -> M V) : M V :=
  match xs with
  | [] => ret v
  | x :: xs' => v' <- body x v ;; for_var xs' v' body
  end.

(** [range(n)]: empty when [n <= 0]. *)
Definition range (n : Z) : list Z := map Z.of_nat (seq 0 (Z.to_nat n)).

(** Python's [%] and [//] on integers round towards minus infinity, as
    [Z.modulo] and [Z.div] do, and raise on a zero divisor. *)
Definition py_mod (a b : Z) : M Z :=
  if b =? 0 then raise ZeroDivisionError else ret (a mod b).

Definition py_floordiv (a b : Z) : M Z :=
  if b =? 0 then raise ZeroDivisionError else ret (a / b).

(** [dtype=int] is numpy's default integer, 64 bits wide; addition of such
    scalars wraps around. *)
Definition wrap64 (z : Z) : Z := (z + 2 ^ 63) mod 2 ^ 64 - 2 ^ 63.

Definition int64_add (a b : Z) : Z := wrap64 (a + b).

(** numpy index normalisation along an axis of length [n]: indices in
    [[0, n)] are taken as they are, indices in [[-n, 0)] count from the end,
    anything else is an [IndexError]. *)
Definition np_index (n : nat) (i : Z) : option nat :=
  if (0 <=? i) && (i <? Z.of_nat n) then Some (Z.to_nat i)
  else if (- Z.of_nat n <=? i) && (i <? 0) then Some (Z.to_nat (i + Z.of_nat n))
  else None.

(** [a[r, c]] on the array itself. *)
Definition nd_get (a : ndarray) (r c : Z) : option Z :=
  match np_index (length a) r with
  | None => None
  | Some i =>
      match a !! i with
      | None => None
      | Some line =>
          match np_index (length line) c with
          | None => None
          | Some j => line !! j
          end
      end
  end.

(** [a[r, c] = v] on the array itself. *)
Definition nd_set (a : ndarray) (r c : Z) (v : Z) : option ndarray :=
  match np_index (length a) r with
  | None => None
  | Some i =>
      match a !! i with
      | None => None
      | Some line =>
          match np_index (length line) c with
          | None => None
          | Some j => Some (<[i := <[j := v]> line]> a)
          end
      end
  end.

(** [grid[r, c]] through a reference. *)
Definition getitem (grid : loc) (r c : Z) : M Z :=
  fun h =>
    match h !! grid with
    | None => Raise InvalidRef
    | Some a =>
        match nd_get a r c with
        | Some v => Return (v, h)
        | None => Raise IndexError
        end
    end.

(** [grid[r, c] = v] through a reference: the array is changed in place. *)
Definition setitem (grid : loc) (r c : Z) (v : Z) : M unit :=
  fun h =>
    match h !! grid with
    | None => Raise InvalidRef
    | Some a =>
        match nd_set a r c v with
        | Some a' => Return (tt, <[grid := a']> h)
        | None => Raise IndexError
        end
    end.

(** Allocation of a new array object. *)
Definition alloc (a : ndarray) : M loc :=
  fun h => let l := fresh (dom h) in Return (l, <[l := a]> h).

(** [np.copy(grid)]: a new array with the same contents. *)
Definition np_copy (grid : loc) : M loc :=
  fun h =>
    match h !! grid with
    | None => Raise InvalidRef
    | Some a => alloc a h
    end.

(** [np.zeros((rows, cols), dtype=int)].  numpy refuses a negative dimension
    with a [ValueError] and accepts a zero one.  A shape of non-negative
    dimensions can still be refused: with a [ValueError] when its size is
    more than numpy can represent (a dimension of 2^63, say), with a
    [MemoryError] when the machine does not have the memory.  Where those
    limits lie depends on the numpy build and on the machine, so they are a
    parameter: [limit rows cols] is the error numpy answers such a shape
    with, if any. *)
Definition np_zeros (limit : Z -> Z -> option exn) (rows cols : Z) : M loc :=
  if (rows <? 0) || (cols <? 0) then raise ValueError
  else
    match limit rows cols with
    | Some e => raise e
    | None => alloc (replicate (Z.to_nat rows) (replicate (Z.to_nat cols) 0))
    end.

(** ** The engine, for any values of the module constants *)

Section Engine.

(** [main.py] fixes [ROWS], [COLS] and [CELL_SIZE] at module level (see
    [Main] below); the functions only read them. *)
Variables ROWS COLS CELL_SIZE : Z.

(** Lines 212-223: the neighbour count of cell [(row, col)]. *)
Definition count_alive_neighbors (grid : loc) (wrap : bool) (row col : Z)
  : M Z :=
  for_var [-1; 0; 1] 0 (fun i alive_neighbors =>
    for_var [-1; 0; 1] alive_neighbors (fun j alive_neighbors =>
      if (i =? 0) && (j =? 0) then ret alive_neighbors
      else
        let r := row + i in
        let c := col + j in
        if wrap then
          r <- py_mod r ROWS ;;
          c <- py_mod c COLS ;;
          v <- getitem grid r c ;;
          ret (int64_add alive_neighbors v)
        else if (0 <=? r) && (r <? ROWS) && ((0 <=? c) && (c <? COLS)) then
          v <- getitem grid r c ;;
          ret (int64_add alive_neighbors v)
        else ret alive_neighbors)).

(** Lines 225-229: the rule applied to one cell.  Both tests read the old
    grid; the writes go to the new one. *)
Definition apply_rules (grid new_grid : loc) (row col : Z)
    (alive_neighbors : Z) : M unit :=
  cur <- getitem grid row col ;;
  if (cur =? 1) && ((alive_neighbors <? 2) || (alive_neighbors >? 3)) then
    setitem new_grid row col 0
  else
    cur <- getitem grid row col ;;
    if (cur =? 0) && (alive_neighbors =? 3) then
      setitem new_grid row col 1
    else ret tt.

Definition update_grid (grid : loc) (wrap : bool) : M loc :=
  new_grid <- np_copy grid ;;
  for_ (range ROWS) (fun row =>
    for_ (range COLS) (fun col =>
      alive_neighbors <- count_alive_neighbors grid wrap row col ;;
      apply_rules grid new_grid row col alive_neighbors)) ;;;
  ret new_grid.

Definition toggle_cell (grid : loc) (pos : Z * Z) (draw_mode : bool)
  : M unit :=
  col <- py_floordiv (fst pos) CELL_SIZE ;;
  row <- py_floordiv (snd pos) CELL_SIZE ;;
  if (0 <=? row) && (row <? ROWS) && ((0 <=? col) && (col <? COLS)) then
    setitem grid row col (if draw_mode then 1 else 0)
  else ret tt.

End Engine.

(** ** The constants of [main.py] *)

Module Main.

Definition GRID_WIDTH : Z := 800.
Definition ROWS : Z := 50.
Definition COLS : Z := 50.
Definition CELL_SIZE : Z := GRID_WIDTH / COLS.

(** Line 37: the grid of the session.  An array of 50 by 50 integers is
    within every limit. *)
Definition grid : M loc := np_zeros (fun _ _ => None) ROWS COLS.

Definition update_grid := update_grid ROWS COLS.
Definition toggle_cell := toggle_cell ROWS COLS CELL_SIZE.

End Main.

(** ** Notions used to state the properties *)

(** Total correctness of a computation: from every store satisfying [P] it
    returns, and the result and final store satisfy [Q]. *)
Definition hoare {A} (P : heap -> Prop) (m : M A) (Q : A -> heap -> Prop)
  : Prop :=
  forall h, P h -> exists a h', m h = Return (a, h') /\ Q a h'.

(** All cells of an array hold 0 (dead) or 1 (alive). *)
Definition binary (a : ndarray) : Prop :=
  Forall (Forall (fun v => v = 0 \/ v = 1)) a.

(** The value of cell [p], 0 where there is no such cell. *)
Definition alive (a : ndarray) (p : Z * Z) : Z :=
  default 0 (nd_get a p.1 p.2).

(** The eight offsets of the Moore neighbourhood, in the order in which the
    loops of [update_grid] visit them. *)
Definition moore : list (Z * Z) :=
  [(-1, -1); (-1, 0); (-1, 1); (0, -1); (0, 1); (1, -1); (1, 0); (1, 1)].

(** The rule of lines 226-229 as a function of the old state of a cell and
    of its neighbour count: the value written, if any. *)
Definition rule (old n : Z) : option Z :=
  if (old =? 1) && ((n <? 2) || (n >? 3)) then Some 0
  else if (old =? 0) && (n =? 3) then Some 1
  else None.

Definition next_state (old n : Z) : Z := default old (rule old n).

Section Notions.

Variables ROWS COLS : Z.

(** An array of [ROWS] rows of [COLS] cells each. *)
Definition shape_ok (a : ndarray) : Prop :=
  Z.of_nat (length a) = ROWS /\
  Forall (fun line => Z.of_nat (length line) = COLS) a.

Definition in_bounds (p : Z * Z) : bool :=
  (0 <=? p.1) && (p.1 <? ROWS) && ((0 <=? p.2) && (p.2 <? COLS)).

(** The coordinates whose cells are counted for [(row, col)]: all eight
    taken modulo the dimensions on the torus, those inside the grid
    otherwise. *)
Definition neighbors (wrap : bool) (row col : Z) : list (Z * Z) :=
  if wrap then
    map (fun d => ((row + d.1) mod ROWS, (col + d.2) mod COLS)) moore
  else
    filter (fun p => in_bounds p = true)
           (map (fun d => (row + d.1, col + d.2)) moore).

(** The sum of the neighbouring cells, in 64-bit arithmetic. *)
Definition neighbor_sum (a : ndarray) (wrap : bool) (row col : Z) : Z :=
  foldl int64_add 0 (map (alive a) (neighbors wrap row col)).

(** How many of the neighbouring cells are alive. *)
Definition live_neighbors (a : ndarray) (wrap : bool) (row col : Z) : Z :=
  Z.of_nat (length (filter (fun p => alive a p = 1)
                           (neighbors wrap row col))).

(** The state lines 226-229 leave in cell [(row, col)] of the new grid,
    as a function of the old grid. *)
Definition next_cell (a : ndarray) (wrap : bool) (row col : Z) : Z :=
  next_state (alive a (row, col)) (neighbor_sum a wrap row col).

(** The new grid while the loops run: the cells in [D] hold their next
    state, and every cell holds either its next state or still the state
    copied from the old grid [a]. *)
Definition partly_updated (a : ndarray) (wrap : bool)
    (D : Z -> Z -> Prop) (n : ndarray) : Prop :=
  shape_ok n /\
  forall r c, 0 <= r < ROWS -> 0 <= c < COLS ->
    (D r c -> nd_get n r c = Some (next_cell a wrap r c)) /\
    (nd_get n r c = Some (next_cell a wrap r c) \/
     nd_get n r c = nd_get a r c).

(** The grid whose live cells are exactly the in-bounds members of
    [cells]. *)
Definition only_live (cells : list (Z * Z)) (a : ndarray) : Prop :=
  shape_ok a /\
  forall row col, 0 <= row < ROWS -> 0 <= col < COLS ->
    nd_get a row col = Some (if decide ((row, col) ∈ cells) then 1 else 0).

End Notions.

(** The state of cell [p] in the pattern whose live cells are [cells]. *)
Definition pattern_cell (cells : list (Z * Z)) (p : Z * Z) : Z :=
  if decide (p ∈ cells) then 1 else 0.

(** The next state of cell [(row, col)] of that pattern on the unbounded
    plane. *)
Definition life_cell (cells : list (Z * Z)) (row col : Z) : Z :=
  next_state (pattern_cell cells (row, col))
    (Z.of_nat (length (filter (fun d => (row + d.1, col + d.2) ∈ cells)
                              moore))).

(** The two phases of the blinker. *)
Definition blinker_horizontal : list (Z * Z) := [(2, 1); (2, 2); (2, 3)].
Definition blinker_vertical : list (Z * Z) := [(1, 2); (2, 2); (3, 2)].

(** A store whose only object is the array [a], at location 1. *)
Definition store_with (a : ndarray) : heap := {[1%positive := a]}.

(** The horizontal blinker on the smallest grid that holds it. *)
Definition blinker_5x5 : ndarray :=
  [[0; 0; 0; 0; 0];
   [0; 0; 0; 0; 0];
   [0; 1; 1; 1; 0];
   [0; 0; 0; 0; 0];
   [0; 0; 0; 0; 0]].

(** A grid of a single row, all alive. *)
Definition all_alive_1x3 : ndarray := [[1; 1; 1]].


(** The 3x3 grids of the boundary examples. *)
Definition corner_alive_3x3 : ndarray := [[1; 0; 0]; [0; 0; 0]; [0; 0; 0]].
Definition all_alive_3x3 : ndarray := [[1; 1; 1]; [1; 1; 1]; [1; 1; 1]].

(** ** The rest of [main.py]: drawing, settings and the main loop *)

(** A colour: an RGB triple. *)
Abbreviation color := (Z * Z * Z)%type.

(** What is drawn.  The screen is only ever written to, so the drawing
    functions are modelled as returning the commands they issue, in order.
    [draw_rect c x y w h] is [pygame.draw.rect(screen, c, (x, y, w, h))] and
    [draw_line c p q] is [pygame.draw.line(screen, c, p, q)]. *)
Inductive draw_cmd : Type :=
  | draw_rect (c : color) (x y w h : Z)
  | draw_line (c : color) (start_pos end_pos : Z * Z).

(** The pixels a filled rectangle covers. *)
Definition covers (cmd : draw_cmd) (p : Z * Z) : Prop :=
  match cmd with
  | draw_rect _ x y w h => x <= p.1 < x + w /\ y <= p.2 < y + h
  | draw_line _ _ _ => False
  end.

(** [pygame.Rect(x, y, width, height)]. *)
Record Rect : Type := mkRect { x : Z; y : Z; width : Z; height : Z }.

(** [rect.collidepoint(p)]: the right and bottom edges are outside. *)
Definition collidepoint (rect : Rect) (p : Z * Z) : bool :=
  (x rect <=? p.1) && (p.1 <? x rect + width rect) &&
  ((y rect <=? p.2) && (p.2 <? y rect + height rect)).

(** [range(start, stop, step)]; a zero step is a [ValueError]. *)
Definition range3 (start stop step : Z) : M (list Z) :=
  if step =? 0 then raise ValueError
  else
    let n := if 0 <? step then (stop - start + step - 1) / step
             else (start - stop - step - 1) / (- step) in
    ret (map (fun k => start + Z.of_nat k * step) (seq 0 (Z.to_nat n))).

(** [xs.index(v)]: the first position of [v], or a [ValueError]. *)
Fixpoint list_index {A} `{EqDecision A} (xs : list A) (v : A) : M Z :=
  match xs with
  | [] => raise ValueError
  | a :: xs' =>
      if decide (a = v) then ret 0
      else i <- list_index xs' v ;; ret (i + 1)
  end.

(** [xs[i]] on a Python list, with negative indices counting from the
    end. *)
Definition list_getitem {A} (xs : list A) (i : Z) : M A :=
  match np_index (length xs) i with
  | None => raise IndexError
  | Some k =>
      match xs !! k with
      | Some a => ret a
      | None => raise IndexError
      end
  end.

(** Conversion of a Python integer to a float (exact below 2^53, which is
    where pixel coordinates and speeds live). *)
Definition float_of_int (z : Z) : float :=
  if z <? 0 then PrimFloat.opp (PrimFloat.of_uint63 (Uint63.of_Z (- z)))
  else PrimFloat.of_uint63 (Uint63.of_Z z).

(** [a / b] on integers: true division, in double precision. *)
Definition py_truediv (a b : Z) : M float :=
  if b =? 0 then raise ZeroDivisionError
  else ret (PrimFloat.div (float_of_int a) (float_of_int b)).

(** [int(f)]: truncation towards zero.  Python refuses a NaN with
    [ValueError] and an infinity with [OverflowError]; the model raises
    [ValueError] for both. *)
Definition py_int (f : float) : M Z :=
  match Prim2SF f with
  | S754_zero _ => ret 0
  | S754_finite s m e =>
      let v := if 0 <=? e then Z.pos m * 2 ^ e else Z.pos m / 2 ^ (- e) in
      ret (if s then - v else v)
  | S754_infinity _ => raise ValueError
  | S754_nan => raise ValueError
  end.

Section Rendering.

Variables ROWS COLS CELL_SIZE GRID_WIDTH HEIGHT : Z.
Variable GRAY : color.

(** Lines 192-195: one filled square per cell that holds 1. *)
Definition draw_cells (grid : loc) (color : color) : M (list draw_cmd) :=
  for_var (range ROWS) [] (fun row screen =>
    for_var (range COLS) screen (fun col screen =>
      v <- getitem grid row col ;;
      if v =? 1 then
        ret (screen ++ [draw_rect color (col * CELL_SIZE) (row * CELL_SIZE)
                                  CELL_SIZE CELL_SIZE])
      else ret screen)).

(** Lines 178-181: the vertical lines, then the horizontal ones. *)
Definition draw_grid : M (list draw_cmd) :=
  xs <- range3 0 GRID_WIDTH CELL_SIZE ;;
  ys <- range3 0 HEIGHT CELL_SIZE ;;
  ret (map (fun x => draw_line GRAY (x, 0) (x, HEIGHT)) xs ++
       map (fun y => draw_line GRAY (0, y) (GRID_WIDTH, y)) ys).

End Rendering.

Section Palette.

Variable cell_colors : list (string * color).

(** Lines 275-276 and 293-294: the colour after [cell_color] in the list
    of available colours, cyclically. *)
Definition next_color (cell_color : color) : M color :=
  current_index <- list_index (map snd cell_colors) cell_color ;;
  i <- py_mod (current_index + 1) (Z.of_nat (length cell_colors)) ;;
  entry <- list_getitem cell_colors i ;;
  ret (snd entry).

(** [n] clicks on the colour button. *)
Fixpoint next_color_iter (n : nat) (cell_color : color) : M color :=
  match n with
  | O => ret cell_color
  | S n' => c <- next_color cell_color ;; next_color_iter n' c
  end.

End Palette.

Section Slider.

Variables min_speed max_speed : Z.

(** Lines 282-284 (and 300-302, 314-316, 318-320): the speed selected by a
    cursor position on a slider. *)
Definition slider_speed (slider : Rect) (pos : Z * Z) : M Z :=
  let rel_x := pos.1 - x slider in
  let rel_x := Z.max 0 (Z.min rel_x (width slider)) in
  q <- py_truediv rel_x (width slider) ;;
  py_int (PrimFloat.add (float_of_int min_speed)
            (PrimFloat.mul q (float_of_int (max_speed - min_speed)))).

End Slider.

(** ** The application: module constants, session state and main loop *)

Module App.

Definition HEIGHT : Z := 800.
Definition PANEL_WIDTH : Z := 250.
Definition WINDOW_WIDTH : Z := Main.GRID_WIDTH + PANEL_WIDTH.

Definition GRAY : color := (100, 100, 100).
Definition GREEN : color := (0, 255, 0).
Definition RED : color := (255, 0, 0).
Definition BLUE : color := (0, 0, 255).
Definition YELLOW : color := (255, 255, 0).

Definition cell_colors : list (string * color) :=
  [("Green"%string, GREEN); ("Red"%string, RED); ("Blue"%string, BLUE);
   ("Yellow"%string, YELLOW)].

(** The entries of the dictionaries [panel_buttons] and
    [start_menu_buttons], which are only ever read at these keys. *)
Definition panel_buttons_color : Rect := mkRect (Main.GRID_WIDTH + 35) 230 180 40.
Definition panel_buttons_wrap : Rect := mkRect (Main.GRID_WIDTH + 35) 280 180 40.
Definition panel_buttons_draw_toggle : Rect :=
  mkRect (Main.GRID_WIDTH + 35) 330 180 40.

Definition start_menu_buttons_color : Rect :=
  mkRect (WINDOW_WIDTH / 2 - 90) 410 180 40.
Definition start_menu_buttons_wrap : Rect :=
  mkRect (WINDOW_WIDTH / 2 - 90) 460 180 40.
Definition start_menu_buttons_start : Rect :=
  mkRect (WINDOW_WIDTH / 2 - 110) 200 220 60.

Definition slider_rect : Rect := mkRect (Main.GRID_WIDTH + 35) 430 180 10.
Definition start_slider_rect : Rect := mkRect (WINDOW_WIDTH / 2 - 90) 550 180 10.
Definition min_speed : Z := 1.
Definition max_speed : Z := 60.

Definition draw_cells := draw_cells Main.ROWS Main.COLS Main.CELL_SIZE.
Definition draw_grid := draw_grid Main.CELL_SIZE Main.GRID_WIDTH HEIGHT GRAY.
Definition next_color := next_color cell_colors.
Definition slider_speed := slider_speed min_speed max_speed.

Inductive app_state_t : Type := START_MENU | GAME.

(** The module-level variables the main loop reads and writes. *)
Record session : Type := mkSession {
  grid : loc;
  cell_color : color;
  speed : Z;
  wrap_enabled : bool;
  draw_mode : bool;
  app_state : app_state_t;
  mouse_held : bool;
  playing : bool;
  running : bool
}.

Definition set_grid (v : loc) (s : session) : session :=
  mkSession v (cell_color s) (speed s) (wrap_enabled s) (draw_mode s)
            (app_state s) (mouse_held s) (playing s) (running s).
Definition set_cell_color (v : color) (s : session) : session :=
  mkSession (grid s) v (speed s) (wrap_enabled s) (draw_mode s)
            (app_state s) (mouse_held s) (playing s) (running s).
Definition set_speed (v : Z) (s : session) : session :=
  mkSession (grid s) (cell_color s) v (wrap_enabled s) (draw_mode s)
            (app_state s) (mouse_held s) (playing s) (running s).
Definition set_wrap_enabled (v : bool) (s : session) : session :=
  mkSession (grid s) (cell_color s) (speed s) v (draw_mode s)
            (app_state s) (mouse_held s) (playing s) (running s).
Definition set_draw_mode (v : bool) (s : session) : session :=
  mkSession (grid s) (cell_color s) (speed s) (wrap_enabled s) v
            (app_state s) (mouse_held s) (playing s) (running s).
Definition set_app_state (v : app_state_t) (s : session) : session :=
  mkSession (grid s) (cell_color s) (speed s) (wrap_enabled s) (draw_mode s)
            v (mouse_held s) (playing s) (running s).
Definition set_mouse_held (v : bool) (s : session) : session :=
  mkSession (grid s) (cell_color s) (speed s) (wrap_enabled s) (draw_mode s)
            (app_state s) v (playing s) (running s).
Definition set_playing (v : bool) (s : session) : session :=
  mkSession (grid s) (cell_color s) (speed s) (wrap_enabled s) (draw_mode s)
            (app_state s) (mouse_held s) v (running s).
Definition set_running (v : bool) (s : session) : session :=
  mkSession (grid s) (cell_color s) (speed s) (wrap_enabled s) (draw_mode s)
            (app_state s) (mouse_held s) (playing s) v.

(** Lines 37-48 and 248-250: the state the program starts in. *)
Definition initial : M session :=
  g <- Main.grid ;;
  ret (mkSession g GREEN 10 true true START_MENU false false true).

Inductive key_t : Type := K_SPACE | K_r | K_other.

(** One pygame event, with what the environment answers to the calls made
    while it is handled: [pos] is the result of [pygame.mouse.get_pos()],
    [pressed] that of [pygame.mouse.get_pressed()[0]]. *)
Inductive event : Type :=
  | QUIT
  | MOUSEBUTTONDOWN (button : Z) (pos : Z * Z)
  | MOUSEBUTTONUP (button : Z)
  | MOUSEMOTION (pos : Z * Z) (pressed : bool)
  | KEYDOWN (key : key_t)
  | OTHER.

(** Lines 273-284: a left click in the start menu. *)
Definition click_start_menu (pos : Z * Z) (s : session) : M session :=
  if collidepoint start_menu_buttons_color pos then
    c <- next_color (cell_color s) ;; ret (set_cell_color c s)
  else if collidepoint start_menu_buttons_wrap pos then
    ret (set_wrap_enabled (negb (wrap_enabled s)) s)
  else if collidepoint start_menu_buttons_start pos then
    ret (set_app_state GAME s)
  else if collidepoint start_slider_rect pos then
    v <- slider_speed start_slider_rect pos ;; ret (set_speed v s)
  else ret s.

(** Lines 287-302: a left click during the game. *)
Definition click_game (pos : Z * Z) (s : session) : M session :=
  s <- (if (pos.1 <? Main.GRID_WIDTH) && negb (playing s) then
          let s := set_mouse_held true s in
          Main.toggle_cell (grid s) pos (draw_mode s) ;;; ret s
        else ret s) ;;
  if negb (playing s) then
    if collidepoint panel_buttons_color pos then
      c <- next_color (cell_color s) ;; ret (set_cell_color c s)
    else if collidepoint panel_buttons_wrap pos then
      ret (set_wrap_enabled (negb (wrap_enabled s)) s)
    else if collidepoint panel_buttons_draw_toggle pos then
      ret (set_draw_mode (negb (draw_mode s)) s)
    else if collidepoint slider_rect pos then
      v <- slider_speed slider_rect pos ;; ret (set_speed v s)
    else ret s
  else ret s.

(** Lines 308-320: the mouse moved. *)
Definition mouse_motion (pos : Z * Z) (pressed : bool) (s : session)
  : M session :=
  if mouse_held s && negb (playing s)
     && match app_state s with GAME => true | START_MENU => false end then
    Main.toggle_cell (grid s) pos (draw_mode s) ;;; ret s
  else if negb (playing s) && pressed then
    match app_state s with
    | START_MENU =>
        if collidepoint start_slider_rect pos then
          v <- slider_speed start_slider_rect pos ;; ret (set_speed v s)
        else ret s
    | GAME =>
        if collidepoint slider_rect pos then
          v <- slider_speed slider_rect pos ;; ret (set_speed v s)
        else ret s
    end
  else ret s.

(** Lines 322-326: a key was pressed. *)
Definition key_down (key : key_t) (s : session) : M session :=
  match key, app_state s with
  | K_SPACE, GAME => ret (set_playing (negb (playing s)) s)
  | K_r, GAME => g <- Main.grid ;; ret (set_grid g s)
  | _, _ => ret s
  end.

(** Lines 264-326: the body of the event loop. *)
Definition handle_event (e : event) (s : session) : M session :=
  match e with
  | QUIT => ret (set_running false s)
  | MOUSEBUTTONDOWN button pos =>
      if button =? 1 then
        match app_state s with
        | START_MENU => click_start_menu pos s
        | GAME => click_game pos s
        end
      else ret s
  | MOUSEBUTTONUP button =>
      if button =? 1 then ret (set_mouse_held false s) else ret s
  | MOUSEMOTION pos pressed => mouse_motion pos pressed s
  | KEYDOWN key => key_down key s
  | OTHER => ret s
  end.

(** Lines 253-333: one pass of the main loop over the events of a frame.
    Of the drawing, the cells and the grid lines are modelled; the result
    is what they put on the screen and the state after the pass. *)
Definition frame (events : list event) (s : session)
  : M (list draw_cmd * session) :=
  screen <- match app_state s with
            | START_MENU => ret []
            | GAME =>
                cells <- draw_cells (grid s) (cell_color s) ;;
                lines <- draw_grid ;;
                ret (cells ++ lines)
            end ;;
  s <- for_var events s (fun e s => handle_event e s) ;;
  s <- match app_state s with
       | GAME =>
           if playing s then
             g <- Main.update_grid (grid s) (wrap_enabled s) ;;
             ret (set_grid g s)
           else ret s
       | START_MENU => ret s
       end ;;
  ret (screen, s).

(** Lines 252-333: the main loop, fed the events of successive frames; it
    stops when [running] is unset or the input ends.  The result is the last
    state. *)
Fixpoint run (frames : list (list event)) (s : session) : M session :=
  match frames with
  | [] => ret s
  | events :: frames' =>
      if running s then
        r <- frame events s ;; run frames' r.2
      else ret s
  end.

End App.

(** ** Notions used for the further properties *)

(** The 2x2 block. *)
Definition block : list (Z * Z) := [(1, 1); (1, 2); (2, 1); (2, 2)].

(** The block on a 5x5 grid. *)
Definition block_5x5 : ndarray :=
  [[0; 0; 0; 0; 0];
   [0; 1; 1; 0; 0];
   [0; 1; 1; 0; 0];
   [0; 0; 0; 0; 0];
   [0; 0; 0; 0; 0]].

Section MoreNotions.

Variables ROWS COLS : Z.

(** The outermost rows and columns of the grid hold only dead cells. *)
Definition dead_border (a : ndarray) : Prop :=
  forall r c, 0 <= r < ROWS -> 0 <= c < COLS ->
    r = 0 \/ r = ROWS - 1 \/ c = 0 \/ c = COLS - 1 ->
    nd_get a r c = Some 0.

(** Every cell that is not dead lies in the rows [r0..r1] and the columns
    [c0..c1]. *)
Definition live_within (r0 r1 c0 c1 : Z) (a : ndarray) : Prop :=
  forall r c v, 0 <= r < ROWS -> 0 <= c < COLS ->
    nd_get a r c = Some v -> v <> 0 ->
    r0 <= r <= r1 /\ c0 <= c <= c1.

(** The cells of the grid, row by row. *)
Definition coordinates : list (Z * Z) :=
  flat_map (fun row => map (fun col => (row, col)) (range COLS)) (range ROWS).

End MoreNotions.

(** The square [draw_cells] draws for a cell. *)
Definition cell_rect (CELL_SIZE : Z) (color : color) (p : Z * Z) : draw_cmd :=
  draw_rect color (p.2 * CELL_SIZE) (p.1 * CELL_SIZE) CELL_SIZE CELL_SIZE.

(** What the main loop keeps true of its state: the grid is a 50 by 50
    array of dead and live cells, the colour is one of the palette, the
    speed is one the slider can select, and the simulation only plays once
    the game has started. *)
Definition session_ok (h : heap) (s : App.session) : Prop :=
  (exists G, h !! App.grid s = Some G /\
             shape_ok Main.ROWS Main.COLS G /\ binary G) /\
  App.cell_color s ∈ map snd App.cell_colors /\
  App.min_speed <= App.speed s < App.max_speed /\
  (App.playing s = true -> App.app_state s = App.GAME).

(** A state of the game with the simulation playing, whose grid is the
    array at location 1. *)
Definition playing_session : App.session :=
  App.mkSession 1%positive App.GREEN 10 true true App.GAME false true true.

(** Clicks and motion of the mouse. *)
Definition mouse_input (e : App.event) : bool :=
  match e with
  | App.MOUSEBUTTONDOWN _ _ | App.MOUSEMOTION _ _ => true
  | _ => false
  end.

(** * Arrays *)

Lemma np_index_in (n : nat) (i : Z) :
  0 <= i < Z.of_nat n -> np_index n i = Some (Z.to_nat i).
Proof.
  intros Hi. unfold np_index.
  destruct (Z.leb_spec 0 i), (Z.ltb_spec i (Z.of_nat n)); simpl; try lia.
  reflexivity.
Qed.

Section ArrayFacts.

Variables ROWS COLS : Z.
Implicit Types (a : ndarray) (line : list Z).

Lemma shape_ok_line a (i : nat) line :
  shape_ok ROWS COLS a -> a !! i = Some line ->
  Z.of_nat (length line) = COLS.
Proof.
  intros [_ Hall] Hi. rewrite Forall_lookup in Hall. exact (Hall i line Hi).
Qed.

Lemma shape_ok_row a (r : Z) :
  shape_ok ROWS COLS a -> 0 <= r < ROWS ->
  exists line, a !! Z.to_nat r = Some line /\ Z.of_nat (length line) = COLS.
Proof.
  intros Ha Hr. destruct (lookup_lt_is_Some_2 a (Z.to_nat r)) as [line Hl].
  { destruct Ha as [Hlen _]. lia. }
  exists line. split; [exact Hl | exact (shape_ok_line _ _ _ Ha Hl)].
Qed.

(** Inside the grid, indexing is plain list lookup. *)
Lemma nd_get_unfold a (r c : Z) line :
  shape_ok ROWS COLS a -> 0 <= r < ROWS -> 0 <= c < COLS ->
  a !! Z.to_nat r = Some line ->
  nd_get a r c = line !! Z.to_nat c.
Proof.
  intros Ha Hr Hc Hl. unfold nd_get.
  rewrite np_index_in by (destruct Ha; lia). rewrite Hl.
  rewrite np_index_in by (pose proof (shape_ok_line _ _ _ Ha Hl); lia).
  reflexivity.
Qed.

Lemma nd_get_in a (r c : Z) :
  shape_ok ROWS COLS a -> 0 <= r < ROWS -> 0 <= c < COLS ->
  exists v, nd_get a r c = Some v.
Proof.
  intros Ha Hr Hc. destruct (shape_ok_row a r Ha Hr) as (line & Hl & Hlen).
  rewrite (nd_get_unfold a r c line) by assumption.
  apply lookup_lt_is_Some_2. lia.
Qed.

Lemma nd_get_alive a (r c : Z) :
  shape_ok ROWS COLS a -> 0 <= r < ROWS -> 0 <= c < COLS ->
  nd_get a r c = Some (alive a (r, c)).
Proof.
  intros Ha Hr Hc. destruct (nd_get_in a r c Ha Hr Hc) as [v Hv].
  unfold alive. simpl. rewrite Hv. reflexivity.
Qed.

(** A write inside the grid succeeds, keeps the shape, is read back, and
    leaves every other cell as it was. *)
Lemma nd_set_in a (r c v : Z) :
  shape_ok ROWS COLS a -> 0 <= r < ROWS -> 0 <= c < COLS ->
  exists a',
    nd_set a r c v = Some a' /\
    shape_ok ROWS COLS a' /\
    nd_get a' r c = Some v /\
    (forall r' c', 0 <= r' < ROWS -> 0 <= c' < COLS -> (r', c') <> (r, c) ->
       nd_get a' r' c' = nd_get a r' c').
Proof.
  intros Ha Hr Hc. destruct (shape_ok_row a r Ha Hr) as (line & Hl & Hlen).
  pose proof Ha as [Hrows Hall].
  assert (Ha' : shape_ok ROWS COLS (<[Z.to_nat r := <[Z.to_nat c := v]> line]> a)).
  { split.
    - rewrite length_insert. exact Hrows.
    - apply Forall_insert; [exact Hall |]. cbv beta.
      rewrite length_insert. exact Hlen. }
  exists (<[Z.to_nat r := <[Z.to_nat c := v]> line]> a).
  split; [| split; [exact Ha' | split]].
  - unfold nd_set. rewrite np_index_in by lia. rewrite Hl.
    rewrite np_index_in by lia. reflexivity.
  - rewrite (nd_get_unfold _ r c (<[Z.to_nat c := v]> line)); try assumption.
    + apply list_lookup_insert_eq. lia.
    + apply list_lookup_insert_eq. lia.
  - intros r' c' Hr' Hc' Hne.
    destruct (shape_ok_row a r' Ha Hr') as (line' & Hl' & Hlen').
    rewrite (nd_get_unfold a r' c' line') by assumption.
    destruct (decide (r' = r)) as [-> | Hrr].
    + assert (line' = line) by congruence. subst line'.
      rewrite (nd_get_unfold _ r c' (<[Z.to_nat c := v]> line));
        try assumption.
      * apply list_lookup_insert_ne. intros Heq.
        apply Hne. f_equal. lia.
      * apply list_lookup_insert_eq. lia.
    + rewrite (nd_get_unfold _ r' c' line'); try assumption.
      * reflexivity.
      * rewrite list_lookup_insert_ne by lia. exact Hl'.
Qed.

(** Two arrays of the same shape with the same cells are the same array. *)
Lemma ndarray_ext a b :
  shape_ok ROWS COLS a -> shape_ok ROWS COLS b ->
  (forall r c, 0 <= r < ROWS -> 0 <= c < COLS -> nd_get a r c = nd_get b r c) ->
  a = b.
Proof.
  intros Ha Hb Hcells. apply list_eq. intros i.
  destruct (decide (i < length a)%nat) as [Hi | Hi].
  - assert (Hr : 0 <= Z.of_nat i < ROWS) by (destruct Ha; lia).
    destruct (shape_ok_row a _ Ha Hr) as (la & Hla & Hlena).
    destruct (shape_ok_row b _ Hb Hr) as (lb & Hlb & Hlenb).
    rewrite Nat2Z.id in Hla, Hlb. rewrite Hla, Hlb. f_equal.
    apply list_eq. intros j.
    destruct (decide (j < length la)%nat) as [Hj | Hj].
    + assert (Hc : 0 <= Z.of_nat j < COLS) by lia.
      specialize (Hcells _ _ Hr Hc).
      rewrite (nd_get_unfold a _ _ la), (nd_get_unfold b _ _ lb) in Hcells;
        try assumption; try (rewrite Nat2Z.id; assumption).
      rewrite Nat2Z.id in Hcells. exact Hcells.
    + rewrite !lookup_ge_None_2 by lia. reflexivity.
  - rewrite !lookup_ge_None_2; [reflexivity | |]; destruct Ha, Hb; lia.
Qed.

Lemma binary_get a (r c v : Z) :
  binary a -> nd_get a r c = Some v -> v = 0 \/ v = 1.
Proof.
  unfold binary, nd_get. intros Hb Hget.
  destruct (np_index (length a) r) as [i |]; [| discriminate].
  destruct (a !! i) as [line |] eqn:Hl; [| discriminate].
  destruct (np_index (length line) c) as [j |]; [| discriminate].
  rewrite Forall_lookup in Hb. specialize (Hb i line Hl).
  rewrite Forall_lookup in Hb. exact (Hb j v Hget).
Qed.

Lemma binary_cells a :
  shape_ok ROWS COLS a ->
  (forall r c v, 0 <= r < ROWS -> 0 <= c < COLS ->
     nd_get a r c = Some v -> v = 0 \/ v = 1) ->
  binary a.
Proof.
  intros Ha Hcells. apply Forall_lookup. intros i line Hl.
  apply Forall_lookup. intros j v Hv.
  pose proof (lookup_lt_Some _ _ _ Hl) as Hi.
  pose proof (lookup_lt_Some _ _ _ Hv) as Hj.
  pose proof (shape_ok_line _ _ _ Ha Hl) as Hlen.
  assert (Hr : 0 <= Z.of_nat i < ROWS) by (destruct Ha; lia).
  assert (Hc : 0 <= Z.of_nat j < COLS) by lia.
  apply (Hcells (Z.of_nat i) (Z.of_nat j) v Hr Hc).
  rewrite (nd_get_unfold a _ _ line); try assumption;
    rewrite Nat2Z.id; assumption.
Qed.

End ArrayFacts.

(** * Computations *)

Lemma bind_Return {A B} (m : M A) (k : A -> M B) (h h' : heap) (a : A) :
  m h = Return (a, h') -> bind m k h = k a h'.
Proof. intros Hm. unfold bind. rewrite Hm. reflexivity. Qed.

(** A loop whose body leaves the store alone folds its local variable. *)
Lemma for_var_pure {A V} (xs : list A) (body : A -> V -> M V)
    (f : V -> A -> V) (h : heap) :
  (forall x v, body x v h = Return (f v x, h)) ->
  forall v, for_var xs v body h = Return (foldl f v xs, h).
Proof.
  intros Hbody. induction xs as [| x xs IH]; intros v; simpl.
  - reflexivity.
  - rewrite (bind_Return _ _ _ _ _ (Hbody x v)). apply IH.
Qed.

(** A loop with an invariant [I], indexed by the elements already visited:
    if every iteration returns and extends the invariant, so does the
    loop. *)
Lemma for_invariant {A} (I : list A -> heap -> Prop) (xs : list A)
    (body : A -> M unit) :
  (forall done x h, x ∈ xs -> I done h ->
     exists h', body x h = Return (tt, h') /\ I (done ++ [x]) h') ->
  hoare (I []) (for_ xs body) (fun _ => I xs).
Proof.
  intros Hbody.
  assert (Hgen : forall todo done h,
             (forall x, x ∈ todo -> x ∈ xs) -> I done h ->
             exists h', for_ todo body h = Return (tt, h') /\
                        I (done ++ todo) h').
  { induction todo as [| x todo IH]; intros done h Hsub HI; simpl.
    - exists h. rewrite app_nil_r. split; [reflexivity | exact HI].
    - destruct (Hbody done x h) as (h1 & Hx & HI1);
        [apply Hsub; left | exact HI |].
      destruct (IH (done ++ [x]) h1) as (h2 & Hrest & HI2);
        [intros y Hy; apply Hsub; right; exact Hy | exact HI1 |].
      exists h2. rewrite (bind_Return _ _ _ _ _ Hx).
      rewrite <- app_assoc in HI2. split; assumption. }
  intros h HI. destruct (Hgen xs [] h) as (h' & Hrun & HI');
    [auto | exact HI |].
  exists tt, h'. split; assumption.
Qed.

Lemma elem_of_range (n x : Z) : x ∈ range n <-> 0 <= x < n.
Proof.
  unfold range. rewrite list_elem_of_fmap. split.
  - intros (k & -> & Hk). apply elem_of_seq in Hk. lia.
  - intros Hx. exists (Z.to_nat x). split; [lia |]. apply elem_of_seq. lia.
Qed.

Section StoreFacts.

Variables ROWS COLS : Z.

Lemma getitem_in (h : heap) (grid : loc) (G : ndarray) (r c : Z) :
  h !! grid = Some G -> shape_ok ROWS COLS G ->
  0 <= r < ROWS -> 0 <= c < COLS ->
  getitem grid r c h = Return (alive G (r, c), h).
Proof.
  intros Hg HG Hr Hc. unfold getitem. rewrite Hg.
  rewrite (nd_get_alive ROWS COLS) by assumption. reflexivity.
Qed.

Lemma setitem_in (h : heap) (grid : loc) (G : ndarray) (r c v : Z) :
  h !! grid = Some G -> shape_ok ROWS COLS G ->
  0 <= r < ROWS -> 0 <= c < COLS ->
  exists G', nd_set G r c v = Some G' /\
             setitem grid r c v h = Return (tt, <[grid := G']> h).
Proof.
  intros Hg HG Hr Hc.
  destruct (nd_set_in ROWS COLS G r c v HG Hr Hc) as (G' & Hset & _).
  exists G'. split; [exact Hset |].
  unfold setitem. rewrite Hg, Hset. reflexivity.
Qed.

Lemma in_bounds_spec (r c : Z) :
  in_bounds ROWS COLS (r, c) = true <-> 0 <= r < ROWS /\ 0 <= c < COLS.
Proof. unfold in_bounds. simpl. lia. Qed.

(** Summing over the neighbours kept by the bounds test is summing with
    the test inside the loop. *)
Lemma foldl_filter_in_bounds (G : ndarray) (ps : list (Z * Z)) (acc : Z) :
  foldl int64_add acc
        (map (alive G) (filter (fun p => in_bounds ROWS COLS p = true) ps))
  = foldl (fun acc p =>
             if in_bounds ROWS COLS p then int64_add acc (alive G p)
             else acc) acc ps.
Proof.
  revert acc. induction ps as [| p ps IH]; intros acc; [reflexivity |].
  rewrite filter_cons. simpl. destruct (in_bounds ROWS COLS p) eqn:Hp.
  - rewrite decide_True by reflexivity. simpl. apply IH.
  - rewrite decide_False by discriminate. apply IH.
Qed.

(** The neighbour loops only read the grid, and return the sum of the
    neighbouring cells of the array the reference points to. *)

Lemma count_alive_neighbors_sum (h : heap) (grid : loc) (G : ndarray)
    (wrap : bool) (row col : Z) :
  h !! grid = Some G -> shape_ok ROWS COLS G -> 0 < ROWS -> 0 < COLS ->
  count_alive_neighbors ROWS COLS grid wrap row col h
  = Return (neighbor_sum ROWS COLS G wrap row col, h).
Proof.
  intros Hg HG HR HC.
  set (visit := fun (i : Z) (acc : Z) (j : Z) =>
    if (i =? 0) && (j =? 0) then acc
    else if wrap then
      int64_add acc (alive G ((row + i) mod ROWS, (col + j) mod COLS))
    else if in_bounds ROWS COLS (row + i, col + j) then
      int64_add acc (alive G (row + i, col + j))
    else acc).
  unfold count_alive_neighbors.
  rewrite (for_var_pure _ _
             (fun acc i => foldl (visit i) acc [-1; 0; 1])).
  - f_equal. f_equal. unfold neighbor_sum, neighbors, visit.
    destruct wrap.
    + lazy [foldl map moore andb Z.eqb Pos.eqb fst snd]. reflexivity.
    + rewrite foldl_filter_in_bounds.
      lazy [foldl map moore andb Z.eqb Pos.eqb fst snd]. reflexivity.
  - intros i acc0. apply for_var_pure. intros j acc. unfold visit.
    destruct ((i =? 0) && (j =? 0)); [reflexivity |].
    destruct wrap.
    + unfold py_mod.
      rewrite (proj2 (Z.eqb_neq ROWS 0)), (proj2 (Z.eqb_neq COLS 0)) by lia.
      unfold bind at 1. unfold ret at 1. unfold bind at 1. unfold ret at 1.
      rewrite (bind_Return _ _ _ _ _
                 (getitem_in h grid G _ _ Hg HG
                    (Z.mod_pos_bound (row + i) ROWS HR)
                    (Z.mod_pos_bound (col + j) COLS HC))).
      reflexivity.
    + cbv zeta.
      change ((0 <=? row + i) && (row + i <? ROWS) &&
              ((0 <=? col + j) && (col + j <? COLS)))
        with (in_bounds ROWS COLS (row + i, col + j)).
      destruct (in_bounds ROWS COLS (row + i, col + j)) eqn:Hb;
        [| reflexivity].
      apply in_bounds_spec in Hb. destruct Hb as [Hr Hc].
      rewrite (bind_Return _ _ _ _ _ (getitem_in h grid G _ _ Hg HG Hr Hc)).
      reflexivity.
Qed.

End StoreFacts.

(** * One generation *)

Lemma wrap64_small (z : Z) : - 2 ^ 63 <= z < 2 ^ 63 -> wrap64 z = z.
Proof.
  intros Hz. unfold wrap64. rewrite Z.mod_small; lia.
Qed.

Lemma alive_binary (G : ndarray) (p : Z * Z) :
  binary G -> alive G p = 0 \/ alive G p = 1.
Proof.
  intros HG. unfold alive. destruct (nd_get G p.1 p.2) as [v |] eqn:Hv.
  - exact (binary_get G _ _ _ HG Hv).
  - left. reflexivity.
Qed.

(** On cells that hold 0 or 1, the 64-bit sum of a few cells is the number
    of cells that hold 1. *)
Lemma sum_binary_cells (G : ndarray) (ps : list (Z * Z)) (acc : Z) :
  binary G -> 0 <= acc -> acc + Z.of_nat (length ps) < 2 ^ 63 ->
  foldl int64_add acc (map (alive G) ps)
  = acc + Z.of_nat (length (filter (fun p => alive G p = 1) ps)).
Proof.
  intros HG. revert acc. induction ps as [| p ps IH]; intros acc Hacc Hlen.
  - simpl. lia.
  - rewrite filter_cons. simpl in Hlen |- *.
    destruct (alive_binary G p HG) as [Hp | Hp].
    + rewrite decide_False by lia. rewrite Hp.
      unfold int64_add. rewrite wrap64_small by lia.
      rewrite IH by lia. lia.
    + rewrite decide_True by exact Hp. rewrite Hp.
      unfold int64_add. rewrite wrap64_small by lia.
      rewrite IH by lia. simpl length. lia.
Qed.

Section UpdateFacts.

Variables ROWS COLS : Z.

Lemma neighbors_length (wrap : bool) (row col : Z) :
  (length (neighbors ROWS COLS wrap row col) <= 8)%nat.
Proof.
  unfold neighbors. destruct wrap.
  - rewrite length_map. reflexivity.
  - etransitivity; [apply length_filter |]. rewrite length_map. reflexivity.
Qed.

(** On a grid of dead and live cells, the count the code computes is the
    number of live neighbours. *)
Lemma neighbor_sum_binary (G : ndarray) (wrap : bool) (row col : Z) :
  binary G ->
  neighbor_sum ROWS COLS G wrap row col
  = live_neighbors ROWS COLS G wrap row col.
Proof.
  intros HG. unfold neighbor_sum, live_neighbors.
  pose proof (neighbors_length wrap row col) as Hlen.
  rewrite sum_binary_cells; [lia | exact HG | lia |].
  assert (2 ^ 63 = 9223372036854775808) as -> by reflexivity. lia.
Qed.

Lemma live_neighbors_range (G : ndarray) (wrap : bool) (row col : Z) :
  0 <= live_neighbors ROWS COLS G wrap row col <= 8.
Proof.
  unfold live_neighbors.
  pose proof (neighbors_length wrap row col) as Hlen.
  pose proof (length_filter (fun p => alive G p = 1)
                (neighbors ROWS COLS wrap row col)) as Hf.
  lia.
Qed.

(** Lines 225-229: the old grid is read, the write (if any) goes to the
    new one. *)
Lemma apply_rules_spec (h : heap) (grid new_grid : loc) (G N : ndarray)
    (row col n : Z) :
  h !! grid = Some G -> h !! new_grid = Some N ->
  shape_ok ROWS COLS G -> shape_ok ROWS COLS N ->
  0 <= row < ROWS -> 0 <= col < COLS ->
  exists N',
    apply_rules grid new_grid row col n h = Return (tt, <[new_grid := N']> h) /\
    match rule (alive G (row, col)) n with
    | Some v => nd_set N row col v = Some N'
    | None => N' = N
    end.
Proof.
  intros Hg Hn HG HN Hr Hc. unfold apply_rules, rule.
  rewrite (bind_Return _ _ _ _ _ (getitem_in ROWS COLS h grid G _ _ Hg HG Hr Hc)).
  destruct ((alive G (row, col) =? 1) && ((n <? 2) || (n >? 3))).
  - destruct (setitem_in ROWS COLS h new_grid N row col 0 Hn HN Hr Hc)
      as (N' & Hset & Hrun).
    exists N'. split; assumption.
  - rewrite (bind_Return _ _ _ _ _
               (getitem_in ROWS COLS h grid G _ _ Hg HG Hr Hc)).
    destruct ((alive G (row, col) =? 0) && (n =? 3)).
    + destruct (setitem_in ROWS COLS h new_grid N row col 1 Hn HN Hr Hc)
        as (N' & Hset & Hrun).
      exists N'. split; assumption.
    + exists N. split; [| reflexivity].
      rewrite insert_id by exact Hn. reflexivity.
Qed.

(** One iteration of the cell loop, on a store where the new grid is an
    object of its own: cell [(row, col)] gets its next state, computed from
    the old grid, and no other cell changes. *)
Lemma cell_step (h : heap) (grid new_grid : loc) (G N : ndarray)
    (wrap : bool) (D : Z -> Z -> Prop) (row col : Z) :
  h !! grid = Some G -> grid <> new_grid ->
  shape_ok ROWS COLS G -> partly_updated ROWS COLS G wrap D N ->
  0 <= row < ROWS -> 0 <= col < COLS ->
  exists N',
    (alive_neighbors <- count_alive_neighbors ROWS COLS grid wrap row col ;;
     apply_rules grid new_grid row col alive_neighbors) (<[new_grid := N]> h)
    = Return (tt, <[new_grid := N']> h) /\
    partly_updated ROWS COLS G wrap
      (fun r c => D r c \/ (r = row /\ c = col)) N'.
Proof.
  intros Hg Hne HG [HN Hcells] Hr Hc.
  assert (Hg' : <[new_grid := N]> h !! grid = Some G)
    by (rewrite lookup_insert_ne by congruence; exact Hg).
  assert (Hn' : <[new_grid := N]> h !! new_grid = Some N)
    by apply lookup_insert_eq.
  rewrite (bind_Return _ _ _ _ _
             (count_alive_neighbors_sum ROWS COLS _ grid G wrap row col
                Hg' HG ltac:(lia) ltac:(lia))).
  destruct (apply_rules_spec _ grid new_grid G N row col
              (neighbor_sum ROWS COLS G wrap row col) Hg' Hn' HG HN Hr Hc)
    as (N' & Hrun & Hrule).
  exists N'. rewrite Hrun, insert_insert_eq. split; [reflexivity |].
  assert (Hnext : next_cell ROWS COLS G wrap row col
                  = default (alive G (row, col))
                      (rule (alive G (row, col))
                            (neighbor_sum ROWS COLS G wrap row col)))
    by reflexivity.
  destruct (rule (alive G (row, col)) (neighbor_sum ROWS COLS G wrap row col))
    as [v |]; simpl in Hnext.
  - destruct (nd_set_in ROWS COLS N row col v HN Hr Hc)
      as (N'' & Hset & HN'' & Hsame & Hother).
    assert (N'' = N') by congruence. subst N''.
    split; [exact HN'' |]. intros r c Hr' Hc'.
    destruct (decide ((r, c) = (row, col))) as [Heq | Hneq].
    + injection Heq as -> ->. rewrite Hsame, Hnext. auto.
    + rewrite (Hother r c Hr' Hc' Hneq).
      destruct (Hcells r c Hr' Hc') as [Hdone Hany].
      split; [| exact Hany].
      intros [Hd | [-> ->]]; [auto | congruence].
  - subst N'. split; [exact HN |]. intros r c Hr' Hc'.
    destruct (Hcells r c Hr' Hc') as [Hdone Hany].
    split; [| exact Hany].
    intros [Hd | [-> ->]]; [auto |].
    destruct Hany as [Hfin | Hold]; [exact Hfin |].
    rewrite Hold, Hnext. apply (nd_get_alive ROWS COLS); assumption.
Qed.

Lemma partly_updated_mono (G N : ndarray) (wrap : bool)
    (D D' : Z -> Z -> Prop) :
  (forall r c, 0 <= r < ROWS -> 0 <= c < COLS -> D' r c -> D r c) ->
  partly_updated ROWS COLS G wrap D N ->
  partly_updated ROWS COLS G wrap D' N.
Proof.
  intros Hsub [HN Hcells]. split; [exact HN |]. intros r c Hr Hc.
  destruct (Hcells r c Hr Hc) as [Hdone Hany]. split; [| exact Hany].
  intros Hd. apply Hdone. apply Hsub; assumption.
Qed.

(** The loops of lines 210-229 turn a fresh copy of the old grid into the
    next generation. *)
Lemma generation_loops (h : heap) (grid new_grid : loc) (G : ndarray)
    (wrap : bool) :
  h !! grid = Some G -> grid <> new_grid -> shape_ok ROWS COLS G ->
  exists G',
    for_ (range ROWS) (fun row =>
      for_ (range COLS) (fun col =>
        alive_neighbors <- count_alive_neighbors ROWS COLS grid wrap row col ;;
        apply_rules grid new_grid row col alive_neighbors))
      (<[new_grid := G]> h)
    = Return (tt, <[new_grid := G']> h) /\
    partly_updated ROWS COLS G wrap (fun _ _ => True) G'.
Proof.
  intros Hg Hne HG.
  set (Inv := fun (D : Z -> Z -> Prop) (hk : heap) =>
    exists N, hk = <[new_grid := N]> h /\
              partly_updated ROWS COLS G wrap D N).
  pose proof (for_invariant
    (fun rows_done => Inv (fun r _ => r ∈ rows_done)) (range ROWS)
    (fun row =>
      for_ (range COLS) (fun col =>
        alive_neighbors <- count_alive_neighbors ROWS COLS grid wrap row col ;;
        apply_rules grid new_grid row col alive_neighbors))) as Houter.
  destruct (Houter) with (h := <[new_grid := G]> h)
    as (u & h' & Hrun & (G' & -> & HG')).
  - (* one row *)
    intros rows_done row hk Hrow HI.
    apply elem_of_range in Hrow.
    pose proof (for_invariant
      (fun cols_done =>
         Inv (fun r c => r ∈ rows_done \/ (r = row /\ c ∈ cols_done)))
      (range COLS)
      (fun col =>
        alive_neighbors <- count_alive_neighbors ROWS COLS grid wrap row col ;;
        apply_rules grid new_grid row col alive_neighbors)) as Hinner.
    destruct Hinner with (h := hk) as (u & h' & Hrun & (N' & -> & HN')).
    + (* one cell *)
      intros cols_done col hc Hcol (N & -> & HN).
      apply elem_of_range in Hcol.
      destruct (cell_step h grid new_grid G N wrap _ row col
                  Hg Hne HG HN Hrow Hcol) as (N' & Hstep & HN').
      exists (<[new_grid := N']> h). split; [exact Hstep |].
      exists N'. split; [reflexivity |].
      revert HN'. apply partly_updated_mono. intros r c _ _.
      rewrite elem_of_app, list_elem_of_singleton. tauto.
    + destruct HI as (N & -> & HN). exists N. split; [reflexivity |].
      revert HN. apply partly_updated_mono. intros r c _ _.
      rewrite elem_of_nil. tauto.
    + exists (<[new_grid := N']> h). destruct u. split; [exact Hrun |].
      exists N'. split; [reflexivity |].
      revert HN'. apply partly_updated_mono. intros r c _ Hc.
      rewrite elem_of_app, list_elem_of_singleton, elem_of_range. tauto.
  - exists G. split; [reflexivity |]. split; [exact HG |].
    intros r c _ _. split; [| right; reflexivity].
    rewrite elem_of_nil. tauto.
  - exists G'. destruct u. split; [exact Hrun |].
    revert HG'. apply partly_updated_mono. intros r c Hr _ _.
    apply elem_of_range. exact Hr.
Qed.

(** [update_grid] returns a new array object holding the next generation
    of the array it was given, which it leaves as it was. *)
Lemma update_grid_spec (h : heap) (grid : loc) (G : ndarray) (wrap : bool) :
  h !! grid = Some G -> shape_ok ROWS COLS G ->
  exists new_grid G',
    update_grid ROWS COLS grid wrap h = Return (new_grid, <[new_grid := G']> h) /\
    h !! new_grid = None /\
    shape_ok ROWS COLS G' /\
    forall r c, 0 <= r < ROWS -> 0 <= c < COLS ->
      nd_get G' r c = Some (next_cell ROWS COLS G wrap r c).
Proof.
  intros Hg HG.
  assert (Hfresh : h !! fresh (dom h) = None)
    by (apply not_elem_of_dom, is_fresh).
  assert (Hne : grid <> fresh (dom h)) by congruence.
  destruct (generation_loops h grid (fresh (dom h)) G wrap Hg Hne HG)
    as (G' & Hrun & HG' & Hcells).
  exists (fresh (dom h)), G'. split; [| split; [exact Hfresh | split]].
  - unfold update_grid.
    assert (Hcopy : np_copy grid h
                    = Return (fresh (dom h), <[fresh (dom h) := G]> h))
      by (unfold np_copy, alloc; rewrite Hg; reflexivity).
    rewrite (bind_Return _ _ _ _ _ Hcopy).
    rewrite (bind_Return _ _ _ _ _ Hrun). reflexivity.
  - exact HG'.
  - intros r c Hr Hc. apply (Hcells r c Hr Hc). exact I.
Qed.

End UpdateFacts.

(** * Editing a cell *)

Section ToggleFacts.

Variables ROWS COLS CELL_SIZE : Z.

(** With a cell size other than zero the divisions succeed, and
    [toggle_cell] is the guarded write of line 244-245. *)
Lemma toggle_cell_unfold (grid : loc) (pos : Z * Z) (draw_mode : bool)
    (h : heap) :
  CELL_SIZE <> 0 ->
  toggle_cell ROWS COLS CELL_SIZE grid pos draw_mode h
  = if in_bounds ROWS COLS (pos.2 / CELL_SIZE, pos.1 / CELL_SIZE)
    then setitem grid (pos.2 / CELL_SIZE) (pos.1 / CELL_SIZE)
                 (if draw_mode then 1 else 0) h
    else Return (tt, h).
Proof.
  intros Hsize. unfold toggle_cell, py_floordiv, in_bounds.
  rewrite (proj2 (Z.eqb_neq CELL_SIZE 0) Hsize).
  unfold bind, ret. cbv beta iota. simpl fst. simpl snd.
  destruct ((0 <=? pos.2 / CELL_SIZE) && (pos.2 / CELL_SIZE <? ROWS)
            && ((0 <=? pos.1 / CELL_SIZE) && (pos.1 / CELL_SIZE <? COLS)));
    reflexivity.
Qed.

(** An in-bounds edit writes the requested state into the array the
    reference points to, in place. *)
Lemma toggle_cell_in (h : heap) (grid : loc) (G : ndarray) (pos : Z * Z)
    (draw_mode : bool) :
  CELL_SIZE <> 0 -> h !! grid = Some G -> shape_ok ROWS COLS G ->
  0 <= pos.2 / CELL_SIZE < ROWS -> 0 <= pos.1 / CELL_SIZE < COLS ->
  exists G',
    toggle_cell ROWS COLS CELL_SIZE grid pos draw_mode h
    = Return (tt, <[grid := G']> h) /\
    nd_set G (pos.2 / CELL_SIZE) (pos.1 / CELL_SIZE)
           (if draw_mode then 1 else 0) = Some G'.
Proof.
  intros Hsize Hg HG Hr Hc. rewrite toggle_cell_unfold by exact Hsize.
  rewrite (proj2 (in_bounds_spec ROWS COLS _ _) (conj Hr Hc)).
  destruct (setitem_in ROWS COLS h grid G _ _ (if draw_mode then 1 else 0)
              Hg HG Hr Hc) as (G' & Hset & Hrun).
  exists G'. split; assumption.
Qed.

Lemma toggle_cell_out (h : heap) (grid : loc) (pos : Z * Z)
    (draw_mode : bool) :
  CELL_SIZE <> 0 ->
  ~ (0 <= pos.2 / CELL_SIZE < ROWS /\ 0 <= pos.1 / CELL_SIZE < COLS) ->
  toggle_cell ROWS COLS CELL_SIZE grid pos draw_mode h = Return (tt, h).
Proof.
  intros Hsize Hout. rewrite toggle_cell_unfold by exact Hsize.
  destruct (in_bounds ROWS COLS (pos.2 / CELL_SIZE, pos.1 / CELL_SIZE))
    eqn:Hb; [| reflexivity].
  apply in_bounds_spec in Hb. contradiction.
Qed.

End ToggleFacts.

(** * Construction *)

Lemma nd_get_zeros (rows cols r c : Z) :
  0 <= r < rows -> 0 <= c < cols ->
  nd_get (replicate (Z.to_nat rows) (replicate (Z.to_nat cols) 0)) r c
  = Some 0.
Proof.
  intros Hr Hc. unfold nd_get.
  rewrite np_index_in by (rewrite length_replicate; lia).
  rewrite lookup_replicate_2 by lia.
  rewrite np_index_in by (rewrite length_replicate; lia).
  apply lookup_replicate_2. lia.
Qed.

Lemma shape_ok_zeros (rows cols : Z) :
  0 <= rows -> 0 <= cols ->
  shape_ok rows cols (replicate (Z.to_nat rows) (replicate (Z.to_nat cols) 0)).
Proof.
  intros Hr Hc. split.
  - rewrite length_replicate. lia.
  - apply Forall_replicate. rewrite length_replicate. lia.
Qed.

(** * The transition rule *)

Lemma next_state_cases (old n : Z) :
  (old = 1 -> n < 2 \/ n > 3 -> next_state old n = 0) /\
  (old = 1 -> n = 2 \/ n = 3 -> next_state old n = 1) /\
  (old = 0 -> n = 3 -> next_state old n = 1) /\
  (old = 0 -> n <> 3 -> next_state old n = 0).
Proof.
  unfold next_state, rule.
  destruct (old =? 1) eqn:H1, (old =? 0) eqn:H0, (n <? 2) eqn:H2,
    (n >? 3) eqn:H3, (n =? 3) eqn:H4; simpl; repeat split; intros; lia.
Qed.

Lemma next_state_binary (old n : Z) :
  old = 0 \/ old = 1 -> next_state old n = 0 \/ next_state old n = 1.
Proof.
  intros Hold. unfold next_state, rule.
  destruct ((old =? 1) && ((n <? 2) || (n >? 3))); [left; reflexivity |].
  destruct ((old =? 0) && (n =? 3)); [right; reflexivity |].
  exact Hold.
Qed.

(** C1.  On a store where [grid] refers to an array [G] of the grid's
    shape, [update_grid] returns a new array object and leaves [G] where it
    was.  For every cell, the neighbour count [n] is the one the counting
    loops return on the store as it was before the call (that is, on the old
    grid: it is the sum of the neighbouring cells of [G], which on a grid of
    dead and live cells is the number of live neighbours, between 0 and 8),
    and the new cell
    follows the rule: a live cell with [n < 2] or [n > 3] is dead, a live
    cell with [n] 2 or 3 is alive, a dead cell with [n = 3] is alive, a dead
    cell with any other [n] is dead. *)
Theorem update_grid_applies_rule (ROWS COLS : Z) (h : heap) (grid : loc)
    (G : ndarray) (wrap : bool) :
  h !! grid = Some G -> shape_ok ROWS COLS G ->
  exists new_grid G',
    update_grid ROWS COLS grid wrap h
    = Return (new_grid, <[new_grid := G']> h) /\
    new_grid <> grid /\
    <[new_grid := G']> h !! grid = Some G /\
    shape_ok ROWS COLS G' /\
    forall row col, 0 <= row < ROWS -> 0 <= col < COLS ->
      exists old n,
        nd_get G row col = Some old /\
        count_alive_neighbors ROWS COLS grid wrap row col h = Return (n, h) /\
        n = neighbor_sum ROWS COLS G wrap row col /\
        (binary G ->
         n = live_neighbors ROWS COLS G wrap row col /\ 0 <= n <= 8) /\
        (old = 1 -> n < 2 \/ n > 3 -> nd_get G' row col = Some 0) /\
        (old = 1 -> n = 2 \/ n = 3 -> nd_get G' row col = Some 1) /\
        (old = 0 -> n = 3 -> nd_get G' row col = Some 1) /\
        (old = 0 -> n <> 3 -> nd_get G' row col = Some 0).
Proof.
  intros Hg HG.
  destruct (update_grid_spec ROWS COLS h grid G wrap Hg HG)
    as (new_grid & G' & Hrun & Hfresh & HG' & Hcells).
  assert (Hne : new_grid <> grid) by congruence.
  exists new_grid, G'. repeat split; try assumption.
  - rewrite lookup_insert_ne by exact Hne. exact Hg.
  - apply HG'.
  - apply HG'.
  - intros row col Hr Hc.
    exists (alive G (row, col)), (neighbor_sum ROWS COLS G wrap row col).
    rewrite (Hcells row col Hr Hc). unfold next_cell.
    destruct (next_state_cases (alive G (row, col))
                (neighbor_sum ROWS COLS G wrap row col))
      as (Hdie & Hstay & Hborn & Hdead).
    split; [apply (nd_get_alive ROWS COLS); assumption |].
    split; [apply count_alive_neighbors_sum; (assumption || lia) |].
    split; [reflexivity |].
    split.
    { intros Hbin. rewrite neighbor_sum_binary by exact Hbin.
      split; [reflexivity | apply live_neighbors_range]. }
    repeat split; intros; f_equal; auto.
Qed.

Lemma update_grid_applies_rule_witness :
  exists new_grid G',
    update_grid 3 3 1%positive true (store_with corner_alive_3x3)
    = Return (new_grid, <[new_grid := G']> (store_with corner_alive_3x3)) /\
    new_grid <> 1%positive /\
    <[new_grid := G']> (store_with corner_alive_3x3) !! 1%positive
    = Some corner_alive_3x3 /\
    shape_ok 3 3 G' /\
    forall row col, 0 <= row < 3 -> 0 <= col < 3 ->
      exists old n,
        nd_get corner_alive_3x3 row col = Some old /\
        count_alive_neighbors 3 3 1%positive true row col
          (store_with corner_alive_3x3)
        = Return (n, (store_with corner_alive_3x3)) /\
        n = neighbor_sum 3 3 corner_alive_3x3 true row col /\
        (binary corner_alive_3x3 ->
         n = live_neighbors 3 3 corner_alive_3x3 true row col /\
         0 <= n <= 8) /\
        (old = 1 -> n < 2 \/ n > 3 -> nd_get G' row col = Some 0) /\
        (old = 1 -> n = 2 \/ n = 3 -> nd_get G' row col = Some 1) /\
        (old = 0 -> n = 3 -> nd_get G' row col = Some 1) /\
        (old = 0 -> n <> 3 -> nd_get G' row col = Some 0).
Proof.
  apply (update_grid_applies_rule 3 3 (store_with corner_alive_3x3)
           1%positive corner_alive_3x3 true).
  - reflexivity.
  - split; [reflexivity | repeat constructor].
Defined.

(** * Editing: out of bounds, in bounds, frame *)

(** C4.  A cursor position whose cell coordinates [(row, col)] fall outside
    the grid makes [toggle_cell] return normally with the store exactly as
    it was: no cell of the grid (or of any other array) changes and nothing
    is raised. *)
Theorem toggle_cell_out_of_bounds_noop (ROWS COLS CELL_SIZE : Z) (h : heap)
    (grid : loc) (pos : Z * Z) (draw_mode : bool) :
  CELL_SIZE <> 0 ->
  (pos.2 / CELL_SIZE < 0 \/ ROWS <= pos.2 / CELL_SIZE \/
   pos.1 / CELL_SIZE < 0 \/ COLS <= pos.1 / CELL_SIZE) ->
  toggle_cell ROWS COLS CELL_SIZE grid pos draw_mode h = Return (tt, h).
Proof.
  intros Hsize Hout. apply toggle_cell_out; [exact Hsize | lia].
Qed.

Lemma toggle_cell_out_of_bounds_noop_witness :
  Main.toggle_cell 1%positive (0, 800) true (store_with all_alive_3x3)
  = Return (tt, store_with all_alive_3x3).
Proof.
  apply (toggle_cell_out_of_bounds_noop Main.ROWS Main.COLS Main.CELL_SIZE).
  - vm_compute. lia.
  - right. left. vm_compute. discriminate.
Defined.

(** C7.  With a cursor position inside the grid, [toggle_cell] writes 1 in
    drawing mode and 0 in erasing mode into the targeted cell, whatever the
    cell held before: the call sets the state, it does not flip it. *)
Theorem toggle_cell_sets_state (ROWS COLS CELL_SIZE : Z) (h : heap)
    (grid : loc) (G : ndarray) (pos : Z * Z) (draw_mode : bool) :
  CELL_SIZE <> 0 -> h !! grid = Some G -> shape_ok ROWS COLS G ->
  0 <= pos.2 / CELL_SIZE < ROWS -> 0 <= pos.1 / CELL_SIZE < COLS ->
  exists G',
    toggle_cell ROWS COLS CELL_SIZE grid pos draw_mode h
    = Return (tt, <[grid := G']> h) /\
    nd_get G' (pos.2 / CELL_SIZE) (pos.1 / CELL_SIZE)
    = Some (if draw_mode then 1 else 0).
Proof.
  intros Hsize Hg HG Hr Hc.
  destruct (toggle_cell_in ROWS COLS CELL_SIZE h grid G pos draw_mode
              Hsize Hg HG Hr Hc) as (G' & Hrun & Hset).
  destruct (nd_set_in ROWS COLS G _ _ (if draw_mode then 1 else 0) HG Hr Hc)
    as (G'' & Hset' & _ & Hread & _).
  assert (G'' = G') by congruence. subst G''.
  exists G'. split; assumption.
Qed.

Lemma toggle_cell_sets_state_witness :
  exists G',
    toggle_cell 3 3 16 1%positive (5, 20) false (store_with all_alive_3x3)
    = Return (tt, <[1%positive := G']> (store_with all_alive_3x3)) /\
    nd_get G' (20 / 16) (5 / 16) = Some 0.
Proof.
  apply (toggle_cell_sets_state 3 3 16 (store_with all_alive_3x3) 1%positive
           all_alive_3x3 (5, 20) false).
  - lia.
  - reflexivity.
  - split; [reflexivity | repeat constructor].
  - vm_compute. split; [discriminate | reflexivity].
  - vm_compute. split; [discriminate | reflexivity].
Defined.

(** C10.  With a cursor position inside the grid, [toggle_cell] changes at
    most the targeted cell: the array keeps its shape, every other cell
    keeps its state, and no other object of the store is touched. *)
Theorem toggle_cell_frame (ROWS COLS CELL_SIZE : Z) (h : heap)
    (grid : loc) (G : ndarray) (pos : Z * Z) (draw_mode : bool) :
  CELL_SIZE <> 0 -> h !! grid = Some G -> shape_ok ROWS COLS G ->
  0 <= pos.2 / CELL_SIZE < ROWS -> 0 <= pos.1 / CELL_SIZE < COLS ->
  exists G' h',
    toggle_cell ROWS COLS CELL_SIZE grid pos draw_mode h = Return (tt, h') /\
    h' !! grid = Some G' /\
    (forall other, other <> grid -> h' !! other = h !! other) /\
    shape_ok ROWS COLS G' /\
    length G' = length G /\
    forall r c, 0 <= r < ROWS -> 0 <= c < COLS ->
      (r, c) <> (pos.2 / CELL_SIZE, pos.1 / CELL_SIZE) ->
      nd_get G' r c = nd_get G r c.
Proof.
  intros Hsize Hg HG Hr Hc.
  destruct (toggle_cell_in ROWS COLS CELL_SIZE h grid G pos draw_mode
              Hsize Hg HG Hr Hc) as (G' & Hrun & Hset).
  destruct (nd_set_in ROWS COLS G _ _ (if draw_mode then 1 else 0) HG Hr Hc)
    as (G'' & Hset' & HG' & _ & Hother).
  assert (G'' = G') by congruence. subst G''.
  exists G', (<[grid := G']> h). split; [exact Hrun |].
  split; [apply lookup_insert_eq |].
  split; [intros other Hne; apply lookup_insert_ne; congruence |].
  split; [exact HG' |].
  split; [| exact Hother].
  destruct HG as [HlenG _], HG' as [HlenG' _]. lia.
Qed.

Lemma toggle_cell_frame_witness :
  exists G' h',
    toggle_cell 3 3 16 1%positive (5, 20) false (store_with all_alive_3x3)
    = Return (tt, h') /\
    h' !! 1%positive = Some G' /\
    (forall other, other <> 1%positive ->
       h' !! other = store_with all_alive_3x3 !! other) /\
    shape_ok 3 3 G' /\
    length G' = length all_alive_3x3 /\
    forall r c, 0 <= r < 3 -> 0 <= c < 3 ->
      (r, c) <> (20 / 16, 5 / 16) ->
      nd_get G' r c = nd_get all_alive_3x3 r c.
Proof.
  apply (toggle_cell_frame 3 3 16 (store_with all_alive_3x3) 1%positive
           all_alive_3x3 (5, 20) false).
  - lia.
  - reflexivity.
  - split; [reflexivity | repeat constructor].
  - vm_compute. split; [discriminate | reflexivity].
  - vm_compute. split; [discriminate | reflexivity].
Defined.

(** * Cell states *)

(** C9.  If every cell of the grid holds 0 or 1, then so does every cell of
    the grid [update_grid] returns (under either topology), and so does every
    cell of the grid after [toggle_cell], wherever the cursor is and whatever
    the mode; both calls return normally. *)
Theorem cells_stay_binary (ROWS COLS CELL_SIZE : Z) (h : heap) (grid : loc)
    (G : ndarray) :
  h !! grid = Some G -> shape_ok ROWS COLS G -> binary G ->
  (forall wrap, exists new_grid G',
     update_grid ROWS COLS grid wrap h
     = Return (new_grid, <[new_grid := G']> h) /\
     binary G') /\
  (CELL_SIZE <> 0 -> forall pos draw_mode, exists G',
     toggle_cell ROWS COLS CELL_SIZE grid pos draw_mode h
     = Return (tt, <[grid := G']> h) /\
     binary G').
Proof.
  intros Hg HG Hbin. split.
  - intros wrap.
    destruct (update_grid_spec ROWS COLS h grid G wrap Hg HG)
      as (new_grid & G' & Hrun & _ & HG' & Hcells).
    exists new_grid, G'. split; [exact Hrun |].
    apply (binary_cells ROWS COLS); [exact HG' |].
    intros r c v Hr Hc Hv. rewrite (Hcells r c Hr Hc) in Hv.
    injection Hv as <-. apply next_state_binary, alive_binary, Hbin.
  - intros Hsize pos draw_mode.
    destruct (in_bounds ROWS COLS (pos.2 / CELL_SIZE, pos.1 / CELL_SIZE))
      eqn:Hb.
    + apply in_bounds_spec in Hb. destruct Hb as [Hr Hc].
      destruct (toggle_cell_in ROWS COLS CELL_SIZE h grid G pos draw_mode
                  Hsize Hg HG Hr Hc) as (G' & Hrun & Hset).
      destruct (nd_set_in ROWS COLS G _ _ (if draw_mode then 1 else 0)
                  HG Hr Hc) as (G'' & Hset' & HG' & Hread & Hother).
      assert (G'' = G') by congruence. subst G''.
      exists G'. split; [exact Hrun |].
      apply (binary_cells ROWS COLS); [exact HG' |].
      intros r c v Hr' Hc' Hv.
      destruct (decide ((r, c) = (pos.2 / CELL_SIZE, pos.1 / CELL_SIZE)))
        as [Heq | Hneq].
      * injection Heq as -> ->. rewrite Hread in Hv. injection Hv as <-.
        destruct draw_mode; auto.
      * rewrite (Hother r c Hr' Hc' Hneq) in Hv.
        exact (binary_get G r c v Hbin Hv).
    + exists G. rewrite insert_id by exact Hg. split; [| exact Hbin].
      apply toggle_cell_out; [exact Hsize |].
      rewrite <- in_bounds_spec. congruence.
Qed.

Lemma cells_stay_binary_witness :
  (forall wrap, exists new_grid G',
     update_grid 3 3 1%positive wrap (store_with all_alive_3x3)
     = Return (new_grid, <[new_grid := G']> (store_with all_alive_3x3)) /\
     binary G') /\
  (16 <> 0 -> forall pos draw_mode, exists G',
     toggle_cell 3 3 16 1%positive pos draw_mode (store_with all_alive_3x3)
     = Return (tt, <[1%positive := G']> (store_with all_alive_3x3)) /\
     binary G').
Proof.
  apply (cells_stay_binary 3 3 16 (store_with all_alive_3x3) 1%positive
           all_alive_3x3).
  - reflexivity.
  - split; [reflexivity | repeat constructor].
  - repeat first [apply Forall_nil_2 | apply Forall_cons_2]; auto.
Defined.

(** * Determinism *)

(** C5.  [update_grid] is a function of the contents of the array it is
    given and of the topology flag: run on two stores in which two
    references hold identical copies of a grid [G], with the same flag, the
    two calls return arrays with identical contents, and each leaves its
    argument holding [G]. *)
Theorem update_grid_deterministic (ROWS COLS : Z) (h1 h2 : heap)
    (grid1 grid2 : loc) (G : ndarray) (wrap : bool) :
  h1 !! grid1 = Some G -> h2 !! grid2 = Some G -> shape_ok ROWS COLS G ->
  exists new1 new2 G',
    update_grid ROWS COLS grid1 wrap h1 = Return (new1, <[new1 := G']> h1) /\
    update_grid ROWS COLS grid2 wrap h2 = Return (new2, <[new2 := G']> h2) /\
    <[new1 := G']> h1 !! grid1 = Some G /\
    <[new2 := G']> h2 !! grid2 = Some G.
Proof.
  intros Hg1 Hg2 HG.
  destruct (update_grid_spec ROWS COLS h1 grid1 G wrap Hg1 HG)
    as (new1 & G1 & Hrun1 & Hfresh1 & HG1 & Hcells1).
  destruct (update_grid_spec ROWS COLS h2 grid2 G wrap Hg2 HG)
    as (new2 & G2 & Hrun2 & Hfresh2 & HG2 & Hcells2).
  assert (G2 = G1) as ->.
  { apply (ndarray_ext ROWS COLS); [exact HG2 | exact HG1 |].
    intros r c Hr Hc. rewrite Hcells1, Hcells2 by assumption. reflexivity. }
  exists new1, new2, G1. repeat split; try assumption.
  - rewrite lookup_insert_ne by congruence. exact Hg1.
  - rewrite lookup_insert_ne by congruence. exact Hg2.
Qed.

Lemma update_grid_deterministic_witness :
  exists new1 new2 G',
    update_grid 3 3 1%positive true (store_with corner_alive_3x3)
    = Return (new1, <[new1 := G']> (store_with corner_alive_3x3)) /\
    update_grid 3 3 2%positive true
      (<[2%positive := corner_alive_3x3]> (store_with all_alive_3x3))
    = Return (new2, <[new2 := G']>
                      (<[2%positive := corner_alive_3x3]>
                         (store_with all_alive_3x3))) /\
    <[new1 := G']> (store_with corner_alive_3x3) !! 1%positive
    = Some corner_alive_3x3 /\
    <[new2 := G']> (<[2%positive := corner_alive_3x3]>
                      (store_with all_alive_3x3)) !! 2%positive
    = Some corner_alive_3x3.
Proof.
  apply (update_grid_deterministic 3 3 (store_with corner_alive_3x3)
           (<[2%positive := corner_alive_3x3]> (store_with all_alive_3x3))
           1%positive 2%positive corner_alive_3x3 true).
  - reflexivity.
  - reflexivity.
  - split; [reflexivity | repeat constructor].
Defined.

(** * Construction of the grid *)




(** * The two topologies *)

Lemma NoDup_moore : NoDup ((0, 0) :: moore).
Proof. apply (bool_decide_unpack _). vm_compute. exact I. Qed.

Lemma moore_offsets (d : Z * Z) :
  d ∈ (0, 0) :: moore -> -1 <= d.1 <= 1 /\ -1 <= d.2 <= 1.
Proof.
  revert d. apply Forall_forall. unfold moore.
  repeat first [apply Forall_nil_2 | apply Forall_cons_2]; simpl; lia.
Qed.

(** Offsets that differ by less than the modulus stay different modulo
    it. *)
Lemma mod_offset_inj (n r i j : Z) :
  3 <= n -> -1 <= i <= 1 -> -1 <= j <= 1 ->
  (r + i) mod n = (r + j) mod n -> i = j.
Proof.
  intros Hn Hi Hj Heq.
  pose proof (Z.div_mod (r + i) n ltac:(lia)) as Hdi.
  pose proof (Z.div_mod (r + j) n ltac:(lia)) as Hdj.
  rewrite Heq in Hdi.
  assert (Hq : (r + i) / n = (r + j) / n) by nia.
  rewrite Hq in Hdi. lia.
Qed.

(** C2.  With [wrap] set, the counting loops add up the cells at the eight
    Moore offsets, each coordinate taken modulo [ROWS] and [COLS].  All
    eight coordinates are cells of the grid, so nothing is dropped at an
    edge or a corner; on a grid with at least three rows and columns they
    are eight different cells, none of them the cell itself.  On a grid of
    dead and live cells the result is the number of live cells among them.
    In the 3x3 grid whose only live cell is (0,0), the count for cell (2,2)
    is 1. *)
Theorem wrapped_neighbors_torus :
  (forall (ROWS COLS : Z) (h : heap) (grid : loc) (G : ndarray) (row col : Z),
     h !! grid = Some G -> shape_ok ROWS COLS G -> 0 < ROWS -> 0 < COLS ->
     let ps := map (fun d => ((row + d.1) mod ROWS, (col + d.2) mod COLS))
                   moore in
     count_alive_neighbors ROWS COLS grid true row col h
     = Return (foldl int64_add 0 (map (alive G) ps), h) /\
     length ps = 8%nat /\
     Forall (fun p => 0 <= p.1 < ROWS /\ 0 <= p.2 < COLS) ps /\
     (3 <= ROWS -> 3 <= COLS ->
      NoDup ps /\ (row mod ROWS, col mod COLS) ∉ ps) /\
     (binary G ->
      foldl int64_add 0 (map (alive G) ps)
      = Z.of_nat (length (filter (fun p => alive G p = 1) ps)))) /\
  (forall (h : heap) (grid : loc),
     h !! grid = Some corner_alive_3x3 ->
     count_alive_neighbors 3 3 grid true 2 2 h = Return (1, h)).
Proof.
  split.
  - intros ROWS COLS h grid G row col Hg HG HR HC ps.
    split; [| split; [| split; [| split]]].
    + rewrite (count_alive_neighbors_sum ROWS COLS h grid G true row col)
        by assumption.
      unfold neighbor_sum, neighbors. reflexivity.
    + reflexivity.
    + apply Forall_forall. intros p Hp. subst ps.
      apply list_elem_of_fmap in Hp as (d & -> & _). simpl.
      split; apply Z.mod_pos_bound; assumption.
    + intros HR3 HC3.
      assert (Hnd : NoDup (map (fun d => ((row + d.1) mod ROWS,
                                          (col + d.2) mod COLS))
                               ((0, 0) :: moore))).
      { apply NoDup_fmap_2_strong; [| exact NoDup_moore].
        intros [i j] [i' j'] Hd Hd' Heq.
        apply moore_offsets in Hd, Hd'. cbn [fst snd] in *.
        injection Heq as Hrow Hcol.
        f_equal; [apply (mod_offset_inj ROWS row) | apply (mod_offset_inj COLS col)];
          (assumption || lia). }
      cbn [map fst snd] in Hnd. rewrite !Z.add_0_r in Hnd.
      apply NoDup_cons in Hnd. destruct Hnd as [Hself Hrest].
      split; [exact Hrest | exact Hself].
    + intros Hbin. rewrite (sum_binary_cells G ps 0 Hbin).
      * lia.
      * lia.
      * assert (2 ^ 63 = 9223372036854775808) as -> by reflexivity.
        subst ps. rewrite length_map. unfold moore. cbn [length]. lia.
  - intros h grid Hg.
    rewrite (count_alive_neighbors_sum 3 3 h grid corner_alive_3x3 true 2 2);
      [| exact Hg | split; [reflexivity | repeat constructor] | lia | lia].
    assert (neighbor_sum 3 3 corner_alive_3x3 true 2 2 = 1) as ->
      by (vm_compute; reflexivity).
    reflexivity.
Qed.

Lemma wrapped_neighbors_torus_witness :
  count_alive_neighbors 3 3 1%positive true 0 0 (store_with all_alive_3x3)
  = Return (foldl int64_add 0
              (map (alive all_alive_3x3)
                 (map (fun d => ((0 + d.1) mod 3, (0 + d.2) mod 3)) moore)),
            store_with all_alive_3x3) /\
  count_alive_neighbors 3 3 1%positive true 2 2 (store_with corner_alive_3x3)
  = Return (1, store_with corner_alive_3x3).
Proof.
  split.
  - apply (proj1 wrapped_neighbors_torus 3 3 (store_with all_alive_3x3)
             1%positive all_alive_3x3 0 0).
    + reflexivity.
    + split; [reflexivity | repeat constructor].
    + lia.
    + lia.
  - apply (proj2 wrapped_neighbors_torus (store_with corner_alive_3x3)
             1%positive).
    reflexivity.
Defined.

(** Decides, one neighbour at a time, which coordinates the bounds test
    keeps, from the position of the cell in the context. *)
Ltac bounds_filter ROWS COLS :=
  repeat (rewrite filter_cons;
          match goal with
          | |- context [decide (in_bounds ROWS COLS ?p = true)] =>
              let Hb := fresh "Hb" in
              destruct (decide (in_bounds ROWS COLS p = true)) as [Hb | Hb];
              rewrite in_bounds_spec in Hb;
              try solve [exfalso; lia];
              clear Hb
          end);
  rewrite filter_nil.

(** Refutation of C3 as stated: on a grid of a single row the counts are
    smaller.  With [ROWS = 1] and [COLS = 3] the corner cell (0,0) has one
    neighbour inside the grid, not three, and the edge cell (0,1), which is
    not a corner, has two, not five; on the all-alive grid the counting loops
    return 1 and 2. *)
Lemma bounded_single_row_counts :
  length (filter (fun p => in_bounds 1 3 p = true)
                 (map (fun d => (0 + d.1, 0 + d.2)) moore)) = 1%nat /\
  length (filter (fun p => in_bounds 1 3 p = true)
                 (map (fun d => (0 + d.1, 1 + d.2)) moore)) = 2%nat /\
  count_alive_neighbors 1 3 1%positive false 0 0 (store_with all_alive_1x3)
  = Return (1, store_with all_alive_1x3) /\
  count_alive_neighbors 1 3 1%positive false 0 1 (store_with all_alive_1x3)
  = Return (2, store_with all_alive_1x3).
Proof.
  split; [reflexivity | split; [reflexivity |]].
  assert (Hshape : shape_ok 1 3 all_alive_1x3)
    by (split; [reflexivity | repeat constructor]).
  rewrite !(count_alive_neighbors_sum 1 3 (store_with all_alive_1x3)
              1%positive all_alive_1x3) by (reflexivity || assumption || lia).
  assert (neighbor_sum 1 3 all_alive_1x3 false 0 0 = 1) as ->
    by (vm_compute; reflexivity).
  assert (neighbor_sum 1 3 all_alive_1x3 false 0 1 = 2) as ->
    by (vm_compute; reflexivity).
  split; reflexivity.
Qed.

(** C3, amended.  With [wrap] unset, the counting loops add up the cells at those of
    the eight Moore coordinates that lie inside the grid and skip the
    others.  On a grid with at least two rows and columns that leaves three
    coordinates for a corner cell and five for an edge cell that is not a
    corner.  On a grid of dead and live cells the result is the number of
    live cells among them.  In the 3x3 grid with every cell alive, the count
    for cell (0,0) is 3. *)
Theorem bounded_neighbors_clipped :
  (forall (ROWS COLS : Z) (h : heap) (grid : loc) (G : ndarray) (row col : Z),
     h !! grid = Some G -> shape_ok ROWS COLS G ->
     0 <= row < ROWS -> 0 <= col < COLS ->
     let ps := filter (fun p => in_bounds ROWS COLS p = true)
                      (map (fun d => (row + d.1, col + d.2)) moore) in
     count_alive_neighbors ROWS COLS grid false row col h
     = Return (foldl int64_add 0 (map (alive G) ps), h) /\
     (forall p, p ∈ ps <->
                p ∈ map (fun d => (row + d.1, col + d.2)) moore /\
                0 <= p.1 < ROWS /\ 0 <= p.2 < COLS) /\
     (2 <= ROWS -> 2 <= COLS ->
      (row = 0 \/ row = ROWS - 1) /\ (col = 0 \/ col = COLS - 1) ->
      length ps = 3%nat) /\
     (2 <= ROWS -> 2 <= COLS ->
      (row = 0 \/ row = ROWS - 1) /\ 0 < col < COLS - 1 \/
      0 < row < ROWS - 1 /\ (col = 0 \/ col = COLS - 1) ->
      length ps = 5%nat) /\
     (binary G ->
      foldl int64_add 0 (map (alive G) ps)
      = Z.of_nat (length (filter (fun p => alive G p = 1) ps)))) /\
  (forall (h : heap) (grid : loc),
     h !! grid = Some all_alive_3x3 ->
     count_alive_neighbors 3 3 grid false 0 0 h = Return (3, h)).
Proof.
  split.
  - intros ROWS COLS h grid G row col Hg HG Hr Hc ps.
    split; [| split; [| split; [| split]]].
    + rewrite (count_alive_neighbors_sum ROWS COLS h grid G false row col)
        by (assumption || lia).
      unfold neighbor_sum, neighbors. reflexivity.
    + intros [r c]. subst ps. rewrite list_elem_of_filter, in_bounds_spec.
      simpl. tauto.
    + intros HR HC [Hrow Hcol]. subst ps. unfold moore. cbn [map fst snd].
      destruct Hrow as [-> | ->], Hcol as [-> | ->];
        bounds_filter ROWS COLS; reflexivity.
    + intros HR HC Hedge. subst ps. unfold moore. cbn [map fst snd].
      destruct Hedge as [[[-> | ->] Hcol] | [Hrow [-> | ->]]];
        bounds_filter ROWS COLS; reflexivity.
    + intros Hbin. rewrite (sum_binary_cells G ps 0 Hbin).
      * lia.
      * lia.
      * assert (2 ^ 63 = 9223372036854775808) as -> by reflexivity.
        pose proof (neighbors_length ROWS COLS false row col) as Hlen.
        unfold neighbors in Hlen. fold ps in Hlen. lia.
  - intros h grid Hg.
    rewrite (count_alive_neighbors_sum 3 3 h grid all_alive_3x3 false 0 0);
      [| exact Hg | split; [reflexivity | repeat constructor] | lia | lia].
    assert (neighbor_sum 3 3 all_alive_3x3 false 0 0 = 3) as ->
      by (vm_compute; reflexivity).
    reflexivity.
Qed.

Lemma bounded_neighbors_clipped_witness :
  length (filter (fun p => in_bounds 3 3 p = true)
                 (map (fun d => (2 + d.1, 0 + d.2)) moore)) = 3%nat /\
  count_alive_neighbors 3 3 1%positive false 0 0 (store_with all_alive_3x3)
  = Return (3, store_with all_alive_3x3).
Proof.
  split.
  - refine (proj1 (proj2 (proj2
              (proj1 bounded_neighbors_clipped 3 3
                 (store_with all_alive_3x3) 1%positive
                 all_alive_3x3 2 0 _ _ _ _))) _ _ _).
    + reflexivity.
    + split; [reflexivity | repeat constructor].
    + lia.
    + lia.
    + lia.
    + lia.
    + split; [right | left]; reflexivity.
  - apply (proj2 bounded_neighbors_clipped (store_with all_alive_3x3)
             1%positive).
    reflexivity.
Defined.

(** * The blinker *)

Lemma only_live_alive (ROWS COLS : Z) (cells : list (Z * Z)) (G : ndarray)
    (r c : Z) :
  only_live ROWS COLS cells G -> 0 <= r < ROWS -> 0 <= c < COLS ->
  alive G (r, c) = pattern_cell cells (r, c).
Proof.
  intros [_ Hcells] Hr Hc. unfold alive, pattern_cell. simpl.
  rewrite (Hcells r c Hr Hc). reflexivity.
Qed.

Lemma only_live_binary (ROWS COLS : Z) (cells : list (Z * Z)) (G : ndarray) :
  only_live ROWS COLS cells G -> binary G.
Proof.
  intros [HG Hcells]. apply (binary_cells ROWS COLS); [exact HG |].
  intros r c v Hr Hc Hv. rewrite (Hcells r c Hr Hc) in Hv.
  injection Hv as <-. destruct (decide ((r, c) ∈ cells)); auto.
Qed.

(** Among coordinates, the live cells inside the grid are the members of
    the pattern. *)
Lemma live_in_bounds_pattern (ROWS COLS : Z) (cells : list (Z * Z))
    (G : ndarray) (ps : list (Z * Z)) :
  only_live ROWS COLS cells G ->
  Forall (fun p => in_bounds ROWS COLS p = true) cells ->
  length (filter (fun p => alive G p = 1)
                 (filter (fun p => in_bounds ROWS COLS p = true) ps))
  = length (filter (fun p => p ∈ cells) ps).
Proof.
  intros HG Hin. induction ps as [| [r c] ps IH]; [reflexivity |].
  rewrite (filter_cons (fun p => in_bounds ROWS COLS p = true)).
  rewrite (filter_cons (fun p => p ∈ cells)).
  destruct (decide (in_bounds ROWS COLS (r, c) = true)) as [Hb | Hb].
  - rewrite filter_cons.
    pose proof Hb as [Hr Hc]%in_bounds_spec.
    rewrite (only_live_alive ROWS COLS cells G r c HG Hr Hc).
    unfold pattern_cell.
    destruct (decide ((r, c) ∈ cells)) as [Hm | Hm].
    + rewrite decide_True by reflexivity. simpl. rewrite IH. reflexivity.
    + rewrite decide_False by discriminate. exact IH.
  - rewrite decide_False; [exact IH |].
    intros Hm. rewrite Forall_forall in Hin. exact (Hb (Hin _ Hm)).
Qed.

(** In bounded mode, a pattern that fits in the grid evolves cell by cell
    as it does on the plane. *)
Lemma next_cell_pattern (ROWS COLS : Z) (cells : list (Z * Z)) (G : ndarray)
    (r c : Z) :
  only_live ROWS COLS cells G ->
  Forall (fun p => in_bounds ROWS COLS p = true) cells ->
  0 <= r < ROWS -> 0 <= c < COLS ->
  next_cell ROWS COLS G false r c = life_cell cells r c.
Proof.
  intros HG Hin Hr Hc. unfold next_cell, life_cell.
  rewrite (only_live_alive ROWS COLS cells G r c HG Hr Hc).
  rewrite neighbor_sum_binary by exact (only_live_binary _ _ _ _ HG).
  unfold live_neighbors, neighbors.
  rewrite (live_in_bounds_pattern ROWS COLS cells G _ HG Hin).
  f_equal. f_equal. generalize moore. intros ds.
  induction ds as [| d ds IH]; [reflexivity |].
  rewrite filter_cons. cbn [map]. rewrite filter_cons.
  destruct (decide ((r + d.1, c + d.2) ∈ cells)); simpl; rewrite IH;
    reflexivity.
Qed.

(** A cell with no member of the pattern in its neighbourhood is dead in
    the next generation. *)
Lemma life_cell_far (cells : list (Z * Z)) (r c : Z) :
  Forall (fun p => ~ (r - 1 <= p.1 <= r + 1 /\ c - 1 <= p.2 <= c + 1)) cells ->
  life_cell cells r c = 0.
Proof.
  intros Hfar. rewrite Forall_forall in Hfar.
  assert (Hout : forall d, d ∈ (0, 0) :: moore -> (r + d.1, c + d.2) ∉ cells).
  { intros d Hd Hm. apply moore_offsets in Hd.
    apply (Hfar _ Hm). simpl. lia. }
  unfold life_cell, pattern_cell.
  rewrite decide_False.
  2: { specialize (Hout (0, 0) ltac:(left)). simpl in Hout.
       rewrite !Z.add_0_r in Hout. exact Hout. }
  assert (Hnone : forall ds, (forall d, d ∈ ds -> d ∈ (0, 0) :: moore) ->
            filter (fun d => (r + d.1, c + d.2) ∈ cells) ds = []).
  { induction ds as [| d ds IH]; intros Hsub; [reflexivity |].
    rewrite filter_cons, decide_False.
    - apply IH. intros d' Hd'. apply Hsub. right. exact Hd'.
    - apply Hout, Hsub. left. }
  rewrite Hnone; [reflexivity |]. intros d Hd. right. exact Hd.
Qed.

(** Case analysis on a coordinate known to lie in [[0, 5)]. *)
Ltac enum5 x :=
  let H := fresh in
  assert (H : x = 0 \/ x = 1 \/ x = 2 \/ x = 3 \/ x = 4) by lia;
  destruct H as [-> | [-> | [-> | [-> | ->]]]].

Lemma blinker_horizontal_next (r c : Z) :
  0 <= r -> 0 <= c ->
  life_cell blinker_horizontal r c = pattern_cell blinker_vertical (r, c).
Proof.
  intros Hr Hc. destruct (decide (r < 5 /\ c < 5)) as [[Hr5 Hc5] | Hbig].
  - enum5 r; enum5 c; vm_compute; reflexivity.
  - rewrite life_cell_far.
    + unfold pattern_cell, blinker_vertical. rewrite decide_False; [reflexivity |].
      rewrite !elem_of_cons, elem_of_nil. intros [H | [H | [H | []]]];
        injection H as -> ->; lia.
    + unfold blinker_horizontal.
      repeat first [apply Forall_nil_2 | apply Forall_cons_2]; simpl; lia.
Qed.

Lemma blinker_vertical_next (r c : Z) :
  0 <= r -> 0 <= c ->
  life_cell blinker_vertical r c = pattern_cell blinker_horizontal (r, c).
Proof.
  intros Hr Hc. destruct (decide (r < 5 /\ c < 5)) as [[Hr5 Hc5] | Hbig].
  - enum5 r; enum5 c; vm_compute; reflexivity.
  - rewrite life_cell_far.
    + unfold pattern_cell, blinker_horizontal.
      rewrite decide_False; [reflexivity |].
      rewrite !elem_of_cons, elem_of_nil. intros [H | [H | [H | []]]];
        injection H as -> ->; lia.
    + unfold blinker_vertical.
      repeat first [apply Forall_nil_2 | apply Forall_cons_2]; simpl; lia.
Qed.

(** One bounded generation of a pattern that fits in the grid. *)
Lemma update_grid_pattern (ROWS COLS : Z) (h : heap) (grid : loc)
    (G : ndarray) (cells cells' : list (Z * Z)) :
  h !! grid = Some G -> only_live ROWS COLS cells G ->
  Forall (fun p => in_bounds ROWS COLS p = true) cells ->
  (forall r c, 0 <= r -> 0 <= c ->
     life_cell cells r c = pattern_cell cells' (r, c)) ->
  exists new_grid G',
    update_grid ROWS COLS grid false h
    = Return (new_grid, <[new_grid := G']> h) /\
    only_live ROWS COLS cells' G'.
Proof.
  intros Hg HG Hin Hnext.
  destruct (update_grid_spec ROWS COLS h grid G false Hg (proj1 HG))
    as (new_grid & G' & Hrun & _ & HG' & Hcells).
  exists new_grid, G'. split; [exact Hrun |]. split; [exact HG' |].
  intros r c Hr Hc. rewrite (Hcells r c Hr Hc).
  rewrite (next_cell_pattern ROWS COLS cells G r c HG Hin Hr Hc).
  rewrite Hnext by lia. reflexivity.
Qed.

Lemma only_live_unique (ROWS COLS : Z) (cells : list (Z * Z))
    (G G' : ndarray) :
  only_live ROWS COLS cells G -> only_live ROWS COLS cells G' -> G' = G.
Proof.
  intros [HG Hcells] [HG' Hcells']. apply (ndarray_ext ROWS COLS); try assumption.
  intros r c Hr Hc. rewrite Hcells, Hcells' by assumption. reflexivity.
Qed.

(** C8.  In bounded mode, on a grid of at least 5 by 5 whose only live
    cells are (2,1), (2,2), (2,3), [update_grid] returns the grid whose only
    live cells are (1,2), (2,2), (3,2), and applied to that result it
    returns a grid equal to the original one. *)
Theorem blinker_oscillates (ROWS COLS : Z) (h : heap) (grid : loc)
    (G : ndarray) :
  5 <= ROWS -> 5 <= COLS ->
  h !! grid = Some G -> only_live ROWS COLS blinker_horizontal G ->
  exists new1 G1 new2,
    update_grid ROWS COLS grid false h = Return (new1, <[new1 := G1]> h) /\
    only_live ROWS COLS blinker_vertical G1 /\
    update_grid ROWS COLS new1 false (<[new1 := G1]> h)
    = Return (new2, <[new2 := G]> (<[new1 := G1]> h)).
Proof.
  intros HR HC Hg HG.
  destruct (update_grid_pattern ROWS COLS h grid G
              blinker_horizontal blinker_vertical Hg HG)
    as (new1 & G1 & Hrun1 & HG1).
  { unfold blinker_horizontal.
    repeat first [apply Forall_nil_2 | apply Forall_cons_2];
      apply in_bounds_spec; lia. }
  { exact blinker_horizontal_next. }
  destruct (update_grid_pattern ROWS COLS (<[new1 := G1]> h) new1 G1
              blinker_vertical blinker_horizontal)
    as (new2 & G2 & Hrun2 & HG2).
  { apply lookup_insert_eq. }
  { exact HG1. }
  { unfold blinker_vertical.
    repeat first [apply Forall_nil_2 | apply Forall_cons_2];
      apply in_bounds_spec; lia. }
  { exact blinker_vertical_next. }
  assert (G2 = G) as -> by exact (only_live_unique ROWS COLS _ _ _ HG HG2).
  exists new1, G1, new2. split; [exact Hrun1 | split; [exact HG1 | exact Hrun2]].
Qed.

Lemma blinker_oscillates_witness :
  exists new1 G1 new2,
    update_grid 5 5 1%positive false (store_with blinker_5x5)
    = Return (new1, <[new1 := G1]> (store_with blinker_5x5)) /\
    only_live 5 5 blinker_vertical G1 /\
    update_grid 5 5 new1 false (<[new1 := G1]> (store_with blinker_5x5))
    = Return (new2, <[new2 := blinker_5x5]>
                      (<[new1 := G1]> (store_with blinker_5x5))).
Proof.
  apply (blinker_oscillates 5 5 (store_with blinker_5x5) 1%positive
           blinker_5x5).
  - lia.
  - lia.
  - reflexivity.
  - split.
    + split; [reflexivity | repeat constructor].
    + intros row col Hr Hc. enum5 row; enum5 col; reflexivity.
Defined.

(** * Further properties of a generation *)

Lemma wrap64_range (z : Z) : - 2 ^ 63 <= wrap64 z < 2 ^ 63.
Proof.
  unfold wrap64. pose proof (Z.mod_pos_bound (z + 2 ^ 63) (2 ^ 64) ltac:(lia)).
  assert (2 ^ 64 = 2 * 2 ^ 63) by reflexivity. lia.
Qed.

Lemma int64_add_0_r (acc : Z) : wrap64 acc = acc -> int64_add acc 0 = acc.
Proof. intros Hacc. unfold int64_add. rewrite Z.add_0_r. exact Hacc. Qed.

Lemma wrap64_int64_add (a b : Z) : wrap64 (int64_add a b) = int64_add a b.
Proof. apply wrap64_small, wrap64_range. Qed.

(** Adding up dead cells gives 0. *)
Lemma sum_dead_cells (G : ndarray) (ps : list (Z * Z)) :
  Forall (fun p => alive G p = 0) ps ->
  foldl int64_add 0 (map (alive G) ps) = 0.
Proof.
  induction 1 as [| p ps Hp _ IH]; [reflexivity |].
  simpl. rewrite Hp. exact IH.
Qed.

(** One step off a coordinate of the grid either stays inside, or wraps to
    the first or last index. *)
Lemma wrap_step (n r i : Z) :
  0 <= r < n -> -1 <= i <= 1 ->
  (0 <= r + i < n /\ (r + i) mod n = r + i) \/
  (~ 0 <= r + i < n /\ ((r + i) mod n = 0 \/ (r + i) mod n = n - 1)).
Proof.
  intros Hr Hi.
  destruct (decide (0 <= r + i < n)) as [Hin | Hout].
  - left. split; [exact Hin | apply Z.mod_small; exact Hin].
  - right. split; [exact Hout |].
    destruct (decide (r + i < 0)) as [Hneg | Hpos].
    + right. replace (r + i) with (n - 1 + (-1) * n) by lia.
      rewrite Z.mod_add by lia. apply Z.mod_small. lia.
    + left. replace (r + i) with (0 + 1 * n) by lia.
      rewrite Z.mod_add by lia. apply Z.mod_small. lia.
Qed.

Section GenerationFacts.

Variables ROWS COLS : Z.

(** On a grid with a dead border, the torus and the bounded grid count the
    same neighbours: the coordinates that wrap land on the border. *)
Lemma neighbor_sum_dead_border (G : ndarray) (r c : Z) :
  shape_ok ROWS COLS G -> dead_border ROWS COLS G ->
  0 <= r < ROWS -> 0 <= c < COLS ->
  neighbor_sum ROWS COLS G true r c = neighbor_sum ROWS COLS G false r c.
Proof.
  intros HG Hborder Hr Hc. unfold neighbor_sum, neighbors.
  assert (Hoff : Forall (fun d : Z * Z => -1 <= d.1 <= 1 /\ -1 <= d.2 <= 1)
                        moore).
  { apply Forall_forall. intros d Hd. apply moore_offsets. right. exact Hd. }
  assert (Hgen : forall ds acc,
            Forall (fun d : Z * Z => -1 <= d.1 <= 1 /\ -1 <= d.2 <= 1) ds ->
            wrap64 acc = acc ->
            foldl int64_add acc
              (map (alive G)
                 (map (fun d => ((r + d.1) mod ROWS, (c + d.2) mod COLS)) ds))
            = foldl int64_add acc
                (map (alive G)
                   (filter (fun p => in_bounds ROWS COLS p = true)
                      (map (fun d => (r + d.1, c + d.2)) ds)))).
  { induction ds as [| [i j] ds IH]; intros acc Hds Hacc; [reflexivity |].
    apply Forall_cons in Hds. destruct Hds as [[Hi Hj] Hds].
    cbn [map fst snd] in *. rewrite filter_cons. cbn [foldl].
    destruct (wrap_step ROWS r i Hr Hi) as [[Hri Hmi] | [Hri Hmi]];
      destruct (wrap_step COLS c j Hc Hj) as [[Hcj Hmj] | [Hcj Hmj]].
    1: { rewrite decide_True by (apply in_bounds_spec; split; assumption).
         rewrite Hmi, Hmj. cbn [map foldl].
         apply IH; [exact Hds | apply wrap64_int64_add]. }
    all: rewrite decide_False by (rewrite in_bounds_spec; tauto).
    all: assert (Hz : alive G ((r + i) mod ROWS, (c + j) mod COLS) = 0)
      by (unfold alive; cbn [fst snd];
          rewrite Hborder;
          [reflexivity
          | apply Z.mod_pos_bound; lia
          | apply Z.mod_pos_bound; lia
          | lia]).
    all: rewrite Hz, int64_add_0_r by exact Hacc; apply IH; assumption. }
  apply Hgen; [exact Hoff | reflexivity].
Qed.

(** The array [update_grid] returns is the next free location. *)
Lemma update_grid_returns_fresh (h h' : heap) (grid new_grid : loc)
    (wrap : bool) :
  update_grid ROWS COLS grid wrap h = Return (new_grid, h') ->
  new_grid = fresh (dom h).
Proof.
  unfold update_grid, bind, np_copy, alloc, ret.
  destruct (h !! grid); [| discriminate].
  match goal with
  | |- context [match ?m with _ => _ end] => destruct m as [[[] ?] |]
  end; [| discriminate].
  intros H. injection H as <- _. reflexivity.
Qed.

(** On a grid of dead cells every cell stays dead, under either
    topology. *)
Lemma next_cell_all_dead (G : ndarray) (wrap : bool) (r c : Z) :
  only_live ROWS COLS [] G -> 0 <= r < ROWS -> 0 <= c < COLS ->
  next_cell ROWS COLS G wrap r c = 0.
Proof.
  intros [HG Hdead] Hr Hc. unfold next_cell.
  assert (Hz : forall p, in_bounds ROWS COLS p = true -> alive G p = 0).
  { intros [r' c'] [Hr' Hc']%in_bounds_spec. unfold alive. simpl.
    rewrite (Hdead r' c' Hr' Hc'). reflexivity. }
  rewrite (Hz (r, c)) by (apply in_bounds_spec; split; assumption).
  unfold neighbor_sum. rewrite sum_dead_cells; [reflexivity |].
  apply Forall_forall. intros p Hp. apply Hz. unfold neighbors in Hp.
  destruct wrap.
  - apply list_elem_of_fmap in Hp as (d & -> & _).
    apply in_bounds_spec. simpl. split; apply Z.mod_pos_bound; lia.
  - apply list_elem_of_filter in Hp. tauto.
Qed.

(** X1.  Stasis of the empty grid: on a grid of any size whose cells are all
    dead, under either topology, [update_grid] returns a grid with the same
    contents. *)
Theorem update_grid_empty_stasis (h : heap) (grid : loc) (G : ndarray)
    (wrap : bool) :
  h !! grid = Some G -> only_live ROWS COLS [] G ->
  exists new_grid,
    update_grid ROWS COLS grid wrap h = Return (new_grid, <[new_grid := G]> h) /\
    h !! new_grid = None.
Proof.
  intros Hg Hdead.
  destruct (update_grid_spec ROWS COLS h grid G wrap Hg (proj1 Hdead))
    as (new_grid & G' & Hrun & Hfresh & HG' & Hcells).
  assert (G' = G) as ->; [| exists new_grid; split; assumption].
  apply (ndarray_ext ROWS COLS); [exact HG' | exact (proj1 Hdead) |].
  intros r c Hr Hc. rewrite (Hcells r c Hr Hc).
  rewrite (next_cell_all_dead G wrap r c Hdead Hr Hc).
  symmetry. exact (proj2 Hdead r c Hr Hc).
Qed.

(** X2.  A grid whose outermost rows and columns are dead evolves in the
    same way under both topologies: the wrapped and the bounded call return
    arrays with the same contents. *)
Theorem update_grid_topology_independent (h : heap) (grid : loc)
    (G : ndarray) :
  h !! grid = Some G -> shape_ok ROWS COLS G -> dead_border ROWS COLS G ->
  exists new_grid G',
    update_grid ROWS COLS grid true h = Return (new_grid, <[new_grid := G']> h) /\
    update_grid ROWS COLS grid false h = Return (new_grid, <[new_grid := G']> h).
Proof.
  intros Hg HG Hborder.
  destruct (update_grid_spec ROWS COLS h grid G true Hg HG)
    as (new1 & G1 & Hrun1 & _ & HG1 & Hcells1).
  destruct (update_grid_spec ROWS COLS h grid G false Hg HG)
    as (new2 & G2 & Hrun2 & _ & HG2 & Hcells2).
  assert (new2 = new1) as ->.
  { rewrite (update_grid_returns_fresh _ _ _ _ _ Hrun1).
    exact (update_grid_returns_fresh _ _ _ _ _ Hrun2). }
  assert (G2 = G1) as ->.
  { apply (ndarray_ext ROWS COLS); try assumption.
    intros r c Hr Hc. rewrite Hcells1, Hcells2 by assumption.
    unfold next_cell. rewrite neighbor_sum_dead_border by assumption.
    reflexivity. }
  exists new1, G1. split; assumption.
Qed.

End GenerationFacts.

Lemma block_next (r c : Z) :
  0 <= r -> 0 <= c -> life_cell block r c = pattern_cell block (r, c).
Proof.
  intros Hr Hc. destruct (decide (r < 5 /\ c < 5)) as [[Hr5 Hc5] | Hbig].
  - enum5 r; enum5 c; vm_compute; reflexivity.
  - rewrite life_cell_far.
    + unfold pattern_cell, block. rewrite decide_False; [reflexivity |].
      rewrite !elem_of_cons, elem_of_nil. intros [H | [H | [H | [H | []]]]];
        injection H as -> ->; lia.
    + unfold block.
      repeat first [apply Forall_nil_2 | apply Forall_cons_2]; simpl; lia.
Qed.

(** X3.  The block is a still life: on a grid of at least 4 by 4 whose only
    live cells are (1,1), (1,2), (2,1), (2,2), [update_grid] returns a grid
    with the same contents, under either topology. *)
Theorem block_still_life (ROWS COLS : Z) (h : heap) (grid : loc)
    (G : ndarray) (wrap : bool) :
  4 <= ROWS -> 4 <= COLS ->
  h !! grid = Some G -> only_live ROWS COLS block G ->
  exists new_grid,
    update_grid ROWS COLS grid wrap h = Return (new_grid, <[new_grid := G]> h).
Proof.
  intros HR HC Hg HG. pose proof HG as [Hshape Hblock].
  assert (Hfits : Forall (fun p => in_bounds ROWS COLS p = true) block).
  { unfold block. repeat first [apply Forall_nil_2 | apply Forall_cons_2];
      apply in_bounds_spec; lia. }
  assert (Hborder : dead_border ROWS COLS G).
  { intros r c Hr Hc Hedge. rewrite (Hblock r c Hr Hc).
    rewrite decide_False; [reflexivity |].
    unfold block. rewrite !elem_of_cons, elem_of_nil.
    intros [H | [H | [H | [H | []]]]]; injection H as -> ->; lia. }
  destruct (update_grid_spec ROWS COLS h grid G wrap Hg Hshape)
    as (new_grid & G' & Hrun & _ & HG' & Hcells).
  assert (G' = G) as ->; [| exists new_grid; exact Hrun].
  apply (ndarray_ext ROWS COLS); try assumption.
  intros r c Hr Hc. rewrite (Hcells r c Hr Hc), (Hblock r c Hr Hc). f_equal.
  transitivity (next_cell ROWS COLS G false r c).
  - destruct wrap; [| reflexivity]. unfold next_cell.
    rewrite (neighbor_sum_dead_border ROWS COLS G r c) by assumption.
    reflexivity.
  - rewrite (next_cell_pattern ROWS COLS block G r c HG Hfits Hr Hc).
    apply block_next; lia.
Qed.

(** X4.  In bounded mode life spreads by at most one cell per generation:
    if every cell that is not dead lies in the rows [r0..r1] and columns
    [c0..c1], then after [update_grid] every cell that is not dead lies in
    the rows [r0-1..r1+1] and columns [c0-1..c1+1]. *)
Theorem update_grid_spreads_by_one (ROWS COLS : Z) (h : heap) (grid : loc)
    (G : ndarray) (r0 r1 c0 c1 : Z) :
  h !! grid = Some G -> shape_ok ROWS COLS G ->
  live_within ROWS COLS r0 r1 c0 c1 G ->
  exists new_grid G',
    update_grid ROWS COLS grid false h
    = Return (new_grid, <[new_grid := G']> h) /\
    live_within ROWS COLS (r0 - 1) (r1 + 1) (c0 - 1) (c1 + 1) G'.
Proof.
  intros Hg HG Hbox.
  destruct (update_grid_spec ROWS COLS h grid G false Hg HG)
    as (new_grid & G' & Hrun & _ & HG' & Hcells).
  exists new_grid, G'. split; [exact Hrun |].
  intros r c v Hr Hc Hv Hlive. rewrite (Hcells r c Hr Hc) in Hv.
  injection Hv as <-.
  destruct (decide (r0 - 1 <= r <= r1 + 1 /\ c0 - 1 <= c <= c1 + 1))
    as [Hin | Hout]; [exact Hin | exfalso].
  assert (Hdead : forall p, in_bounds ROWS COLS p = true ->
            r - 1 <= p.1 <= r + 1 -> c - 1 <= p.2 <= c + 1 ->
            alive G p = 0).
  { intros [r' c'] [Hr' Hc']%in_bounds_spec Hnr Hnc. simpl in Hnr, Hnc.
    destruct (decide (alive G (r', c') = 0)) as [Hz | Hnz]; [exact Hz |].
    pose proof (Hbox r' c' _ Hr' Hc'
                  (nd_get_alive ROWS COLS G r' c' HG Hr' Hc') Hnz).
    lia. }
  apply Hlive. unfold next_cell.
  rewrite (Hdead (r, c)) by (simpl; try apply in_bounds_spec; lia).
  unfold neighbor_sum. rewrite sum_dead_cells; [reflexivity |].
  apply Forall_forall. intros p Hp. unfold neighbors in Hp.
  apply list_elem_of_filter in Hp as [Hb Hp].
  apply list_elem_of_fmap in Hp as (d & -> & Hd).
  pose proof (moore_offsets d ltac:(right; exact Hd)) as [Hi Hj].
  apply Hdead; [exact Hb | simpl; lia | simpl; lia].
Qed.

Lemma update_grid_empty_stasis_witness :
  exists new_grid,
    update_grid 5 5 1%positive true
      (store_with (replicate 5 (replicate 5 0)))
    = Return (new_grid, <[new_grid := replicate 5 (replicate 5 0)]>
                          (store_with (replicate 5 (replicate 5 0)))) /\
    store_with (replicate 5 (replicate 5 0)) !! new_grid = None.
Proof.
  apply (update_grid_empty_stasis 5 5
           (store_with (replicate 5 (replicate 5 0))) 1%positive
           (replicate 5 (replicate 5 0)) true).
  - reflexivity.
  - split.
    + split; [reflexivity | repeat constructor].
    + intros row col Hr Hc. enum5 row; enum5 col; reflexivity.
Defined.

Lemma update_grid_topology_independent_witness :
  exists new_grid G',
    update_grid 5 5 1%positive true (store_with blinker_5x5)
    = Return (new_grid, <[new_grid := G']> (store_with blinker_5x5)) /\
    update_grid 5 5 1%positive false (store_with blinker_5x5)
    = Return (new_grid, <[new_grid := G']> (store_with blinker_5x5)).
Proof.
  apply (update_grid_topology_independent 5 5 (store_with blinker_5x5)
           1%positive blinker_5x5).
  - reflexivity.
  - split; [reflexivity | repeat constructor].
  - intros r c Hr Hc Hedge. enum5 r; enum5 c; try reflexivity; lia.
Defined.

Lemma block_still_life_witness :
  exists new_grid,
    update_grid 5 5 1%positive true (store_with block_5x5)
    = Return (new_grid, <[new_grid := block_5x5]> (store_with block_5x5)).
Proof.
  apply (block_still_life 5 5 (store_with block_5x5) 1%positive block_5x5
           true).
  - lia.
  - lia.
  - reflexivity.
  - split.
    + split; [reflexivity | repeat constructor].
    + intros row col Hr Hc. enum5 row; enum5 col; reflexivity.
Defined.

Lemma update_grid_spreads_by_one_witness :
  exists new_grid G',
    update_grid 5 5 1%positive false (store_with blinker_5x5)
    = Return (new_grid, <[new_grid := G']> (store_with blinker_5x5)) /\
    live_within 5 5 (2 - 1) (2 + 1) (1 - 1) (3 + 1) G'.
Proof.
  apply (update_grid_spreads_by_one 5 5 (store_with blinker_5x5) 1%positive
           blinker_5x5 2 2 1 3).
  - reflexivity.
  - split; [reflexivity | repeat constructor].
  - intros r c v Hr Hc Hv Hlive.
    enum5 r; enum5 c; vm_compute in Hv; injection Hv as <-; lia.
Defined.

(** * Composition of edits *)

Section EditFacts.

Variables ROWS COLS CELL_SIZE : Z.

(** What [toggle_cell] does to the array, inside or outside the grid. *)
Lemma toggle_cell_cells (h : heap) (grid : loc) (G : ndarray) (pos : Z * Z)
    (draw_mode : bool) :
  CELL_SIZE <> 0 -> h !! grid = Some G -> shape_ok ROWS COLS G ->
  exists G',
    toggle_cell ROWS COLS CELL_SIZE grid pos draw_mode h
    = Return (tt, <[grid := G']> h) /\
    shape_ok ROWS COLS G' /\
    forall r c, 0 <= r < ROWS -> 0 <= c < COLS ->
      nd_get G' r c
      = if decide ((r, c) = (pos.2 / CELL_SIZE, pos.1 / CELL_SIZE))
        then Some (if draw_mode then 1 else 0)
        else nd_get G r c.
Proof.
  intros Hsize Hg HG.
  destruct (in_bounds ROWS COLS (pos.2 / CELL_SIZE, pos.1 / CELL_SIZE))
    eqn:Hb.
  - apply in_bounds_spec in Hb. destruct Hb as [Hr Hc].
    destruct (toggle_cell_in ROWS COLS CELL_SIZE h grid G pos draw_mode
                Hsize Hg HG Hr Hc) as (G' & Hrun & Hset).
    destruct (nd_set_in ROWS COLS G _ _ (if draw_mode then 1 else 0)
                HG Hr Hc) as (G'' & Hset' & HG' & Hread & Hother).
    assert (G'' = G') by congruence. subst G''.
    exists G'. split; [exact Hrun | split; [exact HG' |]].
    intros r c Hr' Hc'. destruct (decide _) as [Heq | Hne].
    + injection Heq as -> ->. exact Hread.
    + apply Hother; assumption.
  - exists G. rewrite insert_id by exact Hg.
    split; [| split; [exact HG |]].
    + apply toggle_cell_out; [exact Hsize |].
      rewrite <- in_bounds_spec. congruence.
    + intros r c Hr Hc. rewrite decide_False; [reflexivity |].
      intros Heq. injection Heq as Hr' Hc'. rewrite <- Hr', <- Hc' in Hb.
      rewrite (proj2 (in_bounds_spec ROWS COLS r c) (conj Hr Hc)) in Hb.
      discriminate.
Qed.

(** X5.  The last edit of a cell wins: two calls of [toggle_cell] whose
    cursor positions fall in the same cell leave the store as the second
    call alone does, whatever the two modes are.  In particular repeating an
    edit changes nothing. *)
Theorem toggle_cell_last_wins (h : heap) (grid : loc) (G : ndarray)
    (pos1 pos2 : Z * Z) (mode1 mode2 : bool) :
  CELL_SIZE <> 0 -> h !! grid = Some G -> shape_ok ROWS COLS G ->
  pos1.1 / CELL_SIZE = pos2.1 / CELL_SIZE ->
  pos1.2 / CELL_SIZE = pos2.2 / CELL_SIZE ->
  (toggle_cell ROWS COLS CELL_SIZE grid pos1 mode1 ;;;
   toggle_cell ROWS COLS CELL_SIZE grid pos2 mode2) h
  = toggle_cell ROWS COLS CELL_SIZE grid pos2 mode2 h.
Proof.
  intros Hsize Hg HG Hcol Hrow.
  destruct (toggle_cell_cells h grid G pos1 mode1 Hsize Hg HG)
    as (G1 & Hrun1 & HG1 & Hcells1).
  destruct (toggle_cell_cells (<[grid := G1]> h) grid G1 pos2 mode2 Hsize
              (lookup_insert_eq _ _ _) HG1) as (G12 & Hrun12 & HG12 & Hcells12).
  destruct (toggle_cell_cells h grid G pos2 mode2 Hsize Hg HG)
    as (G2 & Hrun2 & HG2 & Hcells2).
  rewrite (bind_Return _ _ _ _ _ Hrun1), Hrun12, Hrun2, insert_insert_eq.
  assert (G12 = G2) as -> ; [| reflexivity].
  apply (ndarray_ext ROWS COLS); try assumption.
  intros r c Hr Hc.
  rewrite Hcells12, Hcells2, Hcells1 by assumption.
  rewrite Hcol, Hrow. destruct (decide _); reflexivity.
Qed.

(** X6.  Edits of different cells commute: two calls of [toggle_cell] whose
    cursor positions fall in different cells leave the same store in either
    order. *)
Theorem toggle_cell_commute (h : heap) (grid : loc) (G : ndarray)
    (pos1 pos2 : Z * Z) (mode1 mode2 : bool) :
  CELL_SIZE <> 0 -> h !! grid = Some G -> shape_ok ROWS COLS G ->
  (pos1.2 / CELL_SIZE, pos1.1 / CELL_SIZE)
  <> (pos2.2 / CELL_SIZE, pos2.1 / CELL_SIZE) ->
  (toggle_cell ROWS COLS CELL_SIZE grid pos1 mode1 ;;;
   toggle_cell ROWS COLS CELL_SIZE grid pos2 mode2) h
  = (toggle_cell ROWS COLS CELL_SIZE grid pos2 mode2 ;;;
     toggle_cell ROWS COLS CELL_SIZE grid pos1 mode1) h.
Proof.
  intros Hsize Hg HG Hne.
  destruct (toggle_cell_cells h grid G pos1 mode1 Hsize Hg HG)
    as (G1 & Hrun1 & HG1 & Hcells1).
  destruct (toggle_cell_cells (<[grid := G1]> h) grid G1 pos2 mode2 Hsize
              (lookup_insert_eq _ _ _) HG1) as (G12 & Hrun12 & HG12 & Hcells12).
  destruct (toggle_cell_cells h grid G pos2 mode2 Hsize Hg HG)
    as (G2 & Hrun2 & HG2 & Hcells2).
  destruct (toggle_cell_cells (<[grid := G2]> h) grid G2 pos1 mode1 Hsize
              (lookup_insert_eq _ _ _) HG2) as (G21 & Hrun21 & HG21 & Hcells21).
  rewrite (bind_Return _ _ _ _ _ Hrun1), Hrun12.
  rewrite (bind_Return _ _ _ _ _ Hrun2), Hrun21.
  rewrite !insert_insert_eq.
  assert (G12 = G21) as -> ; [| reflexivity].
  apply (ndarray_ext ROWS COLS); try assumption.
  intros r c Hr Hc.
  rewrite Hcells12, Hcells21, Hcells1, Hcells2 by assumption.
  repeat destruct (decide _); congruence.
Qed.

End EditFacts.

Lemma toggle_cell_last_wins_witness :
  (toggle_cell 3 3 16 1%positive (5, 20) true ;;;
   toggle_cell 3 3 16 1%positive (9, 30) false) (store_with all_alive_3x3)
  = toggle_cell 3 3 16 1%positive (9, 30) false (store_with all_alive_3x3).
Proof.
  apply (toggle_cell_last_wins 3 3 16 (store_with all_alive_3x3) 1%positive
           all_alive_3x3 (5, 20) (9, 30) true false).
  - lia.
  - reflexivity.
  - split; [reflexivity | repeat constructor].
  - reflexivity.
  - reflexivity.
Defined.

Lemma toggle_cell_commute_witness :
  (toggle_cell 3 3 16 1%positive (5, 20) true ;;;
   toggle_cell 3 3 16 1%positive (40, 30) false) (store_with all_alive_3x3)
  = (toggle_cell 3 3 16 1%positive (40, 30) false ;;;
     toggle_cell 3 3 16 1%positive (5, 20) true) (store_with all_alive_3x3).
Proof.
  apply (toggle_cell_commute 3 3 16 (store_with all_alive_3x3) 1%positive
           all_alive_3x3 (5, 20) (40, 30) true false).
  - lia.
  - reflexivity.
  - split; [reflexivity | repeat constructor].
  - vm_compute. discriminate.
Defined.

(** * Drawing *)

(** [for_var_pure] for a body that is only known on the elements of the
    list. *)
Lemma for_var_pure_in {A V} (xs : list A) (body : A -> V -> M V)
    (f : V -> A -> V) (h : heap) :
  (forall x v, x ∈ xs -> body x v h = Return (f v x, h)) ->
  forall v, for_var xs v body h = Return (foldl f v xs, h).
Proof.
  induction xs as [| x xs IH]; intros Hbody v; simpl.
  - reflexivity.
  - rewrite (bind_Return _ _ _ _ _ (Hbody x v ltac:(left))).
    apply IH. intros y w Hy. apply Hbody. right. exact Hy.
Qed.

(** The cell a pixel belongs to. *)
Lemma div_cell (size k v : Z) :
  0 < size -> (k * size <= v < k * size + size <-> v / size = k).
Proof.
  intros Hsize. split.
  - intros Hv. symmetry. apply (Z.div_unique_pos v size k (v - k * size)); lia.
  - intros <-. pose proof (Z.div_mod v size ltac:(lia)).
    pose proof (Z.mod_pos_bound v size Hsize). lia.
Qed.

Section DrawFacts.

Variables ROWS COLS CELL_SIZE : Z.

Lemma elem_of_coordinates (p : Z * Z) :
  p ∈ coordinates ROWS COLS <-> 0 <= p.1 < ROWS /\ 0 <= p.2 < COLS.
Proof.
  unfold coordinates. rewrite list_elem_of_In, in_flat_map. split.
  - intros (row & Hrow & Hp). apply list_elem_of_In, elem_of_range in Hrow.
    apply list_elem_of_In, list_elem_of_fmap in Hp as (col & -> & Hcol).
    apply elem_of_range in Hcol. simpl. lia.
  - intros [Hr Hc]. exists p.1. split.
    + apply list_elem_of_In, elem_of_range. exact Hr.
    + apply list_elem_of_In, list_elem_of_fmap. exists p.2.
      split; [destruct p; reflexivity | apply elem_of_range; exact Hc].
Qed.

(** The loops of [draw_cells] read the grid without changing the store and
    draw the squares of the live cells, row by row. *)
Lemma draw_cells_run (h : heap) (grid : loc) (G : ndarray) (color : color) :
  h !! grid = Some G -> shape_ok ROWS COLS G ->
  draw_cells ROWS COLS CELL_SIZE grid color h
  = Return (map (cell_rect CELL_SIZE color)
              (filter (fun p => alive G p = 1) (coordinates ROWS COLS)), h).
Proof.
  intros Hg HG. unfold draw_cells.
  set (row_squares := fun row : Z =>
         map (cell_rect CELL_SIZE color)
           (filter (fun p => alive G p = 1)
              (map (fun col => (row, col)) (range COLS)))).
  rewrite (for_var_pure_in _ _ (fun screen row => screen ++ row_squares row)).
  - f_equal. f_equal. unfold coordinates.
    assert (Hgen : forall rows acc,
              foldl (fun screen row => screen ++ row_squares row) acc rows
              = acc ++ map (cell_rect CELL_SIZE color)
                         (filter (fun p => alive G p = 1)
                            (flat_map (fun row => map (fun col => (row, col))
                                                      (range COLS)) rows))).
    { induction rows as [| row rows IH]; intros acc; simpl.
      - rewrite app_nil_r. reflexivity.
      - rewrite IH, filter_app, map_app, app_assoc. reflexivity. }
    apply (Hgen (range ROWS) []).
  - intros row screen0 Hrow. apply elem_of_range in Hrow.
    rewrite (for_var_pure_in _ _
               (fun screen col =>
                  if alive G (row, col) =? 1
                  then screen ++ [cell_rect CELL_SIZE color (row, col)]
                  else screen)).
    + f_equal. f_equal. unfold row_squares. generalize (range COLS).
      intros cols. revert screen0.
      induction cols as [| col cols IH]; intros screen; simpl.
      * rewrite app_nil_r. reflexivity.
      * rewrite IH, filter_cons.
        destruct (Z.eqb_spec (alive G (row, col)) 1) as [Heq | Hne].
        -- rewrite decide_True by exact Heq. simpl.
           rewrite <- app_assoc. reflexivity.
        -- rewrite decide_False by exact Hne. reflexivity.
    + intros col screen Hcol. apply elem_of_range in Hcol.
      rewrite (bind_Return _ _ _ _ _
                 (getitem_in ROWS COLS h grid G row col Hg HG Hrow Hcol)).
      destruct (alive G (row, col) =? 1); reflexivity.
Qed.

(** A pixel is covered by a drawn square exactly when the cell it belongs
    to is in the grid and alive. *)
Lemma drawn_pixel (G : ndarray) (color : color) (pos : Z * Z) :
  0 < CELL_SIZE ->
  (exists cmd,
     cmd ∈ map (cell_rect CELL_SIZE color)
             (filter (fun p => alive G p = 1) (coordinates ROWS COLS)) /\
     covers cmd pos) <->
  (0 <= pos.2 / CELL_SIZE < ROWS /\ 0 <= pos.1 / CELL_SIZE < COLS) /\
  alive G (pos.2 / CELL_SIZE, pos.1 / CELL_SIZE) = 1.
Proof.
  intros Hsize. split.
  - intros (cmd & Hcmd & Hcov).
    apply list_elem_of_fmap in Hcmd as ([r c] & -> & Hp).
    apply list_elem_of_filter in Hp as [Hlive Hp].
    apply elem_of_coordinates in Hp. simpl in Hp, Hcov.
    destruct Hcov as [Hx Hy].
    apply (div_cell CELL_SIZE c pos.1 Hsize) in Hx.
    apply (div_cell CELL_SIZE r pos.2 Hsize) in Hy.
    rewrite Hx, Hy. split; [lia | exact Hlive].
  - intros [[Hr Hc] Hlive].
    exists (cell_rect CELL_SIZE color (pos.2 / CELL_SIZE, pos.1 / CELL_SIZE)).
    split.
    + apply list_elem_of_fmap. eexists. split; [reflexivity |].
      apply list_elem_of_filter. split; [exact Hlive |].
      apply elem_of_coordinates. simpl. lia.
    + simpl. split; apply (div_cell CELL_SIZE); (exact Hsize || reflexivity).
Qed.

(** X7.  What [draw_cells] shows at a pixel is the state of the cell that
    [toggle_cell] edits there: the call returns without changing the store,
    and a pixel is covered by one of the squares drawn exactly when the cell
    [(y // CELL_SIZE, x // CELL_SIZE)] is in the grid and holds 1. *)
Theorem draw_cells_shows_grid (h : heap) (grid : loc) (G : ndarray)
    (color : color) :
  0 < CELL_SIZE -> h !! grid = Some G -> shape_ok ROWS COLS G ->
  exists screen,
    draw_cells ROWS COLS CELL_SIZE grid color h = Return (screen, h) /\
    forall pos,
      (exists cmd, cmd ∈ screen /\ covers cmd pos) <->
      (0 <= pos.2 / CELL_SIZE < ROWS /\ 0 <= pos.1 / CELL_SIZE < COLS) /\
      nd_get G (pos.2 / CELL_SIZE) (pos.1 / CELL_SIZE) = Some 1.
Proof.
  intros Hsize Hg HG. eexists. split; [apply draw_cells_run; eassumption |].
  intros pos. rewrite (drawn_pixel G color pos Hsize).
  split; intros [[Hr Hc] Hlive]; (split; [split; assumption |]).
  - rewrite (nd_get_alive ROWS COLS G _ _ HG Hr Hc). f_equal. exact Hlive.
  - unfold alive. simpl. rewrite Hlive. reflexivity.
Qed.

(** X8.  A click shows: after [toggle_cell] at a cursor position inside the
    grid, [draw_cells] covers that position with a square in drawing mode and
    with none in erasing mode. *)
Theorem toggle_then_draw (h : heap) (grid : loc) (G : ndarray)
    (pos : Z * Z) (draw_mode : bool) (color : color) :
  0 < CELL_SIZE -> h !! grid = Some G -> shape_ok ROWS COLS G ->
  0 <= pos.2 / CELL_SIZE < ROWS -> 0 <= pos.1 / CELL_SIZE < COLS ->
  exists screen h',
    (toggle_cell ROWS COLS CELL_SIZE grid pos draw_mode ;;;
     draw_cells ROWS COLS CELL_SIZE grid color) h = Return (screen, h') /\
    ((exists cmd, cmd ∈ screen /\ covers cmd pos) <-> draw_mode = true).
Proof.
  intros Hsize Hg HG Hr Hc.
  destruct (toggle_cell_cells ROWS COLS CELL_SIZE h grid G pos draw_mode
              ltac:(lia) Hg HG) as (G' & Hrun & HG' & Hcells).
  rewrite (bind_Return _ _ _ _ _ Hrun).
  rewrite (draw_cells_run (<[grid := G']> h) grid G' color
             (lookup_insert_eq _ _ _) HG').
  eexists _, _. split; [reflexivity |].
  rewrite (drawn_pixel G' color pos Hsize).
  unfold alive. simpl. rewrite (Hcells _ _ Hr Hc).
  rewrite decide_True by reflexivity. simpl.
  destruct draw_mode; split; try tauto; try discriminate.
  intros [_ H]. discriminate H.
Qed.

End DrawFacts.

Lemma draw_cells_shows_grid_witness :
  exists screen,
    draw_cells 3 3 16 1%positive App.GREEN (store_with corner_alive_3x3)
    = Return (screen, store_with corner_alive_3x3) /\
    forall pos,
      (exists cmd, cmd ∈ screen /\ covers cmd pos) <->
      (0 <= pos.2 / 16 < 3 /\ 0 <= pos.1 / 16 < 3) /\
      nd_get corner_alive_3x3 (pos.2 / 16) (pos.1 / 16) = Some 1.
Proof.
  apply (draw_cells_shows_grid 3 3 16 (store_with corner_alive_3x3)
           1%positive corner_alive_3x3 App.GREEN).
  - lia.
  - reflexivity.
  - split; [reflexivity | repeat constructor].
Defined.

Lemma toggle_then_draw_witness :
  exists screen h',
    (toggle_cell 3 3 16 1%positive (5, 20) false ;;;
     draw_cells 3 3 16 1%positive App.GREEN) (store_with all_alive_3x3)
    = Return (screen, h') /\
    ((exists cmd, cmd ∈ screen /\ covers cmd (5, 20)) <-> false = true).
Proof.
  apply (toggle_then_draw 3 3 16 (store_with all_alive_3x3) 1%positive
           all_alive_3x3 (5, 20) false App.GREEN).
  - lia.
  - reflexivity.
  - split; [reflexivity | repeat constructor].
  - vm_compute. split; [discriminate | reflexivity].
  - vm_compute. split; [discriminate | reflexivity].
Defined.

(** * Grid lines *)

(** With a positive step, [range(0, stop, step)] is the multiples of the
    step below [stop]. *)
Lemma range3_multiples (stop step : Z) (h : heap) :
  0 < step ->
  exists xs,
    range3 0 stop step h = Return (xs, h) /\
    forall v, v ∈ xs <-> exists k, 0 <= k /\ k * step < stop /\ v = k * step.
Proof.
  intros Hstep. eexists. split.
  - unfold range3. rewrite (proj2 (Z.eqb_neq step 0)) by lia.
    rewrite (proj2 (Z.ltb_lt 0 step) Hstep). reflexivity.
  - intros v. rewrite list_elem_of_fmap. split.
    + intros (k & -> & Hk). apply elem_of_seq in Hk.
      exists (Z.of_nat k). split; [lia |]. split; [| lia].
      destruct (decide (Z.of_nat k * step < stop)) as [Hlt | Hge];
        [exact Hlt | exfalso].
      assert ((stop - 0 + step - 1) / step < Z.of_nat k + 1)
        by (apply Z.div_lt_upper_bound; nia).
      lia.
    + intros (k & Hk & Hlt & ->). exists (Z.to_nat k).
      split; [lia |]. apply elem_of_seq.
      assert (k + 1 <= (stop - 0 + step - 1) / step)
        by (apply Z.div_le_lower_bound; nia).
      lia.
Qed.

(** X9.  With a positive cell size [draw_grid] returns without touching the
    store, and the lines it draws are exactly the vertical lines at the
    multiples of the cell size left of [GRID_WIDTH] and the horizontal lines
    at the multiples above [HEIGHT]: they run along the left and top edges of
    the squares [draw_cells] draws.  With a cell size of zero it raises
    [ValueError]. *)
Theorem draw_grid_lines (CELL_SIZE GRID_WIDTH HEIGHT : Z) (GRAY : color)
    (h : heap) :
  (0 < CELL_SIZE ->
   exists screen,
     draw_grid CELL_SIZE GRID_WIDTH HEIGHT GRAY h = Return (screen, h) /\
     forall cmd, cmd ∈ screen <->
       (exists k, 0 <= k /\ k * CELL_SIZE < GRID_WIDTH /\
          cmd = draw_line GRAY (k * CELL_SIZE, 0) (k * CELL_SIZE, HEIGHT)) \/
       (exists k, 0 <= k /\ k * CELL_SIZE < HEIGHT /\
          cmd = draw_line GRAY (0, k * CELL_SIZE) (GRID_WIDTH, k * CELL_SIZE))) /\
  (CELL_SIZE = 0 ->
   draw_grid CELL_SIZE GRID_WIDTH HEIGHT GRAY h = Raise ValueError).
Proof.
  split.
  - intros Hsize.
    destruct (range3_multiples GRID_WIDTH CELL_SIZE h Hsize) as (xs & Hxs & Hx).
    destruct (range3_multiples HEIGHT CELL_SIZE h Hsize) as (ys & Hys & Hy).
    eexists. split.
    + unfold draw_grid. rewrite (bind_Return _ _ _ _ _ Hxs).
      rewrite (bind_Return _ _ _ _ _ Hys). reflexivity.
    + intros cmd. rewrite elem_of_app, !list_elem_of_fmap. split.
      * intros [(v & -> & Hv) | (v & -> & Hv)].
        -- left. apply Hx in Hv as (k & Hk & Hlt & ->). exists k. auto.
        -- right. apply Hy in Hv as (k & Hk & Hlt & ->). exists k. auto.
      * intros [(k & Hk & Hlt & ->) | (k & Hk & Hlt & ->)].
        -- left. exists (k * CELL_SIZE). split; [reflexivity |].
           apply Hx. exists k. auto.
        -- right. exists (k * CELL_SIZE). split; [reflexivity |].
           apply Hy. exists k. auto.
  - intros ->. reflexivity.
Qed.

Lemma draw_grid_lines_witness :
  (exists screen,
     App.draw_grid (store_with all_alive_3x3)
     = Return (screen, store_with all_alive_3x3) /\
     forall cmd, cmd ∈ screen <->
       (exists k, 0 <= k /\ k * Main.CELL_SIZE < Main.GRID_WIDTH /\
          cmd = draw_line App.GRAY (k * Main.CELL_SIZE, 0)
                  (k * Main.CELL_SIZE, App.HEIGHT)) \/
       (exists k, 0 <= k /\ k * Main.CELL_SIZE < App.HEIGHT /\
          cmd = draw_line App.GRAY (0, k * Main.CELL_SIZE)
                  (Main.GRID_WIDTH, k * Main.CELL_SIZE))) /\
  draw_grid 0 800 800 App.GRAY (store_with all_alive_3x3) = Raise ValueError.
Proof.
  split.
  - apply (proj1 (draw_grid_lines Main.CELL_SIZE Main.GRID_WIDTH App.HEIGHT
                    App.GRAY (store_with all_alive_3x3))).
    vm_compute. reflexivity.
  - apply (proj2 (draw_grid_lines 0 800 800 App.GRAY
                    (store_with all_alive_3x3))).
    reflexivity.
Defined.

(** * The colour button *)

Section PaletteFacts.

Context {A : Type} `{EqDecision A}.

Lemma list_index_found (xs : list A) (v : A) (h : heap) :
  v ∈ xs ->
  exists i : nat,
    list_index xs v h = Return (Z.of_nat i, h) /\ xs !! i = Some v.
Proof.
  induction xs as [| a xs IH]; intros Hv; [inversion Hv |]. simpl.
  destruct (decide (a = v)) as [-> | Hne].
  - exists 0%nat. split; reflexivity.
  - destruct IH as (i & Hrun & Hi);
      [apply elem_of_cons in Hv as [-> | Hv]; [contradiction | exact Hv] |].
    exists (S i). rewrite (bind_Return _ _ _ _ _ Hrun). split; [| exact Hi].
    unfold ret. do 2 f_equal. lia.
Qed.

Lemma list_index_missing (xs : list A) (v : A) (h : heap) :
  v ∉ xs -> list_index xs v h = Raise ValueError.
Proof.
  induction xs as [| a xs IH]; intros Hv; [reflexivity |]. simpl.
  apply not_elem_of_cons in Hv as [Hne Hv].
  rewrite decide_False by congruence. unfold bind. rewrite IH by exact Hv.
  reflexivity.
Qed.

(** In a list without repetitions, [index] finds the position the value
    sits at. *)
Lemma list_index_NoDup (xs : list A) (v : A) (i : nat) (h : heap) :
  NoDup xs -> xs !! i = Some v -> list_index xs v h = Return (Z.of_nat i, h).
Proof.
  intros Hnd Hi.
  destruct (list_index_found xs v h) as (j & Hrun & Hj);
    [apply list_elem_of_lookup; eauto |].
  rewrite (NoDup_lookup xs i j v Hnd Hi Hj). exact Hrun.
Qed.

End PaletteFacts.

Section ColorFacts.

Variable cell_colors : list (string * color).

(** One click from the colour at position [i] of a palette without repeated
    colours leads to the colour at position [i + 1], cyclically. *)
Lemma next_color_at (i : nat) (c : color) (h : heap) :
  NoDup (map snd cell_colors) -> map snd cell_colors !! i = Some c ->
  exists c',
    next_color cell_colors c h = Return (c', h) /\
    map snd cell_colors
      !! Z.to_nat ((Z.of_nat i + 1) mod Z.of_nat (length cell_colors))
    = Some c'.
Proof.
  intros Hnd Hi. pose proof (lookup_lt_Some _ _ _ Hi) as Hlt.
  rewrite length_map in Hlt.
  pose proof (Z.mod_pos_bound (Z.of_nat i + 1) (Z.of_nat (length cell_colors))
                ltac:(lia)) as Hm.
  destruct (lookup_lt_is_Some_2 cell_colors
              (Z.to_nat ((Z.of_nat i + 1) mod Z.of_nat (length cell_colors))))
    as [entry Hentry]; [lia |].
  exists (snd entry). split.
  - unfold next_color.
    rewrite (bind_Return _ _ _ _ _ (list_index_NoDup _ c i h Hnd Hi)).
    unfold py_mod. rewrite (proj2 (Z.eqb_neq _ 0)) by lia.
    unfold bind at 1. unfold ret at 1. unfold list_getitem.
    rewrite np_index_in by lia. rewrite Hentry. reflexivity.
  - rewrite list_lookup_fmap, Hentry. reflexivity.
Qed.

(** X10.  The colour button cycles: on a palette without repeated colours,
    as many clicks as the palette has entries lead from any of its colours
    back to that colour, without an error. *)
Theorem next_color_period (c : color) (h : heap) :
  NoDup (map snd cell_colors) -> c ∈ map snd cell_colors ->
  next_color_iter cell_colors (length cell_colors) c h = Return (c, h).
Proof.
  intros Hnd Hc. apply list_elem_of_lookup in Hc as [i Hi].
  pose proof (lookup_lt_Some _ _ _ Hi) as Hlt. rewrite length_map in Hlt.
  assert (Hgen : forall k i c,
            map snd cell_colors !! i = Some c ->
            exists c',
              next_color_iter cell_colors k c h = Return (c', h) /\
              map snd cell_colors
                !! Z.to_nat ((Z.of_nat i + Z.of_nat k)
                             mod Z.of_nat (length cell_colors))
              = Some c').
  { induction k as [| k IH]; intros j d Hj.
    - exists d. split; [reflexivity |].
      pose proof (lookup_lt_Some _ _ _ Hj) as Hjlt. rewrite length_map in Hjlt.
      rewrite Z.add_0_r, Z.mod_small by lia. rewrite Nat2Z.id. exact Hj.
    - destruct (next_color_at j d h Hnd Hj) as (d' & Hstep & Hd').
      destruct (IH _ _ Hd') as (d'' & Hrest & Hd'').
      exists d''. simpl. rewrite (bind_Return _ _ _ _ _ Hstep).
      split; [exact Hrest |]. rewrite <- Hd''. f_equal. f_equal.
      pose proof (lookup_lt_Some _ _ _ Hj) as Hjlt. rewrite length_map in Hjlt.
      rewrite Z2Nat.id by (apply Z.mod_pos_bound; lia).
      rewrite Zplus_mod_idemp_l. f_equal. lia. }
  destruct (Hgen (length cell_colors) i c Hi) as (c' & Hrun & Hc').
  rewrite Hrun. do 2 f_equal.
  replace (Z.of_nat i + Z.of_nat (length cell_colors))
    with (Z.of_nat i + 1 * Z.of_nat (length cell_colors)) in Hc' by lia.
  rewrite Z.mod_add, Z.mod_small, Nat2Z.id in Hc' by lia.
  congruence.
Qed.

(** From a colour of the palette, a click selects a colour of the
    palette. *)
Lemma next_color_found (c : color) (h : heap) :
  c ∈ map snd cell_colors ->
  exists c', next_color cell_colors c h = Return (c', h) /\
             c' ∈ map snd cell_colors.
Proof.
  intros Hc. destruct (list_index_found _ c h Hc) as (i & Hrun & Hi).
  pose proof (lookup_lt_Some _ _ _ Hi) as Hlt. rewrite length_map in Hlt.
  pose proof (Z.mod_pos_bound (Z.of_nat i + 1)
                (Z.of_nat (length cell_colors)) ltac:(lia)) as Hm.
  destruct (lookup_lt_is_Some_2 cell_colors
              (Z.to_nat ((Z.of_nat i + 1)
                         mod Z.of_nat (length cell_colors))))
    as [entry Hentry]; [lia |].
  exists (snd entry). split.
  - unfold next_color. rewrite (bind_Return _ _ _ _ _ Hrun).
    unfold py_mod. rewrite (proj2 (Z.eqb_neq _ 0)) by lia.
    unfold bind at 1. unfold ret at 1. unfold list_getitem.
    rewrite np_index_in by lia. rewrite Hentry. reflexivity.
  - apply list_elem_of_fmap. exists entry. split; [reflexivity |].
    apply list_elem_of_lookup. eauto.
Qed.

(** X11.  A click on the colour button selects a colour of the palette when
    the current colour is one of the palette, and raises [ValueError] (from
    [list.index]) when it is not; it never changes the store. *)
Theorem next_color_in_palette (c : color) (h : heap) :
  (c ∈ map snd cell_colors ->
   exists c', next_color cell_colors c h = Return (c', h) /\
              c' ∈ map snd cell_colors) /\
  (c ∉ map snd cell_colors -> next_color cell_colors c h = Raise ValueError).
Proof.
  split.
  - apply next_color_found.
  - intros Hc. unfold next_color, bind.
    rewrite (list_index_missing _ c h Hc). reflexivity.
Qed.

End ColorFacts.

Lemma next_color_period_witness :
  next_color_iter App.cell_colors 4 App.BLUE (store_with all_alive_3x3)
  = Return (App.BLUE, store_with all_alive_3x3).
Proof.
  apply (next_color_period App.cell_colors App.BLUE
           (store_with all_alive_3x3)).
  - apply (bool_decide_unpack _). vm_compute. exact I.
  - apply (bool_decide_unpack _). vm_compute. exact I.
Defined.

Lemma next_color_in_palette_witness :
  (exists c', App.next_color App.YELLOW (store_with all_alive_3x3)
              = Return (c', store_with all_alive_3x3) /\
              c' ∈ map snd App.cell_colors) /\
  App.next_color (1, 2, 3) (store_with all_alive_3x3) = Raise ValueError.
Proof.
  split.
  - apply (proj1 (next_color_in_palette App.cell_colors App.YELLOW
                    (store_with all_alive_3x3))).
    apply (bool_decide_unpack _). vm_compute. exact I.
  - apply (proj2 (next_color_in_palette App.cell_colors (1, 2, 3)
                    (store_with all_alive_3x3))).
    apply (bool_decide_unpack _). vm_compute. exact I.
Defined.

(** * The speed slider *)

(** The slider computation does not look at the store. *)
Lemma slider_speed_store (min_speed max_speed : Z) (slider : Rect)
    (pos : Z * Z) (h : heap) :
  slider_speed min_speed max_speed slider pos h
  = match slider_speed min_speed max_speed slider pos ∅ with
    | Return (v, _) => Return (v, h)
    | Raise e => Raise e
    end.
Proof.
  unfold slider_speed, py_truediv, py_int, bind, ret, raise.
  destruct (width slider =? 0); [reflexivity |].
  destruct (Prim2SF _) as [| | | [] m e]; try reflexivity;
    destruct (0 <=? e); reflexivity.
Qed.

(** It depends on the cursor only through the clamped offset from the left
    end of the slider. *)
Lemma slider_speed_offset (min_speed max_speed : Z) (slider : Rect)
    (pos : Z * Z) (h : heap) :
  0 <= width slider ->
  slider_speed min_speed max_speed slider pos h
  = slider_speed min_speed max_speed (mkRect 0 0 (width slider) 0)
      (Z.max 0 (Z.min (pos.1 - x slider) (width slider)), 0) h.
Proof.
  intros Hw. unfold slider_speed. cbn [fst x width].
  replace (Z.max 0 (Z.min (Z.max 0 (Z.min (pos.1 - x slider) (width slider)) - 0)
                          (width slider)))
    with (Z.max 0 (Z.min (pos.1 - x slider) (width slider))) by lia.
  reflexivity.
Qed.

(** On a slider 180 pixels wide, with speeds from 1 to 60, the floating-point
    computation agrees at every offset with integer arithmetic. *)
Lemma slider_speed_table :
  forallb (fun k =>
             match slider_speed 1 60 (mkRect 0 0 180 0) (Z.of_nat k, 0) ∅ with
             | Return (v, _) => v =? 1 + Z.of_nat k * 59 / 180
             | Raise _ => false
             end) (seq 0 181) = true.
Proof. vm_compute. reflexivity. Qed.

Lemma slider_speed_value (slider : Rect) (pos : Z * Z) (h : heap) :
  width slider = 180 ->
  App.slider_speed slider pos h
  = Return (1 + Z.max 0 (Z.min (pos.1 - x slider) 180) * 59 / 180, h).
Proof.
  intros Hw. unfold App.slider_speed, App.min_speed, App.max_speed.
  rewrite slider_speed_offset by lia. rewrite Hw.
  set (rel := Z.max 0 (Z.min (pos.1 - x slider) 180)).
  rewrite slider_speed_store.
  pose proof slider_speed_table as Htable.
  rewrite forallb_forall in Htable.
  specialize (Htable (Z.to_nat rel)).
  rewrite Z2Nat.id in Htable by lia.
  destruct (slider_speed 1 60 (mkRect 0 0 180 0) (rel, 0) ∅) as [[v ?] |].
  - assert (Hv : (v =? 1 + rel * 59 / 180) = true)
      by (apply Htable, in_seq; lia).
    apply Z.eqb_eq in Hv. rewrite Hv. reflexivity.
  - assert (false = true) by (apply Htable, in_seq; lia). discriminate.
Qed.

(** X12.  The speed a slider selects.  On a slider 180 pixels wide (both
    sliders of the program are) the speed computed in floating point for a
    cursor position equals [1 + 59 * rel_x // 180], where [rel_x] is the
    offset from the left end of the slider clamped to [0, 180]; it is never
    an error, it lies between [min_speed] and [max_speed], it is [min_speed]
    at the left end, and for a position on the slider (the only ones the
    event handlers pass) it is below [max_speed]: the top speed cannot be
    selected. *)
Theorem slider_speed_exact (slider : Rect) (pos : Z * Z) (h : heap) :
  width slider = 180 ->
  exists v,
    App.slider_speed slider pos h = Return (v, h) /\
    v = 1 + Z.max 0 (Z.min (pos.1 - x slider) 180) * 59 / 180 /\
    App.min_speed <= v <= App.max_speed /\
    (pos.1 <= x slider -> v = App.min_speed) /\
    (collidepoint slider pos = true -> v < App.max_speed).
Proof.
  intros Hw. eexists. split; [apply slider_speed_value; exact Hw |].
  split; [reflexivity |]. unfold App.min_speed, App.max_speed.
  set (rel := Z.max 0 (Z.min (pos.1 - x slider) 180)).
  assert (Hrel : 0 <= rel <= 180) by lia.
  assert (Hlo : 0 <= rel * 59 / 180) by (apply Z.div_pos; lia).
  assert (Hhi : rel * 59 / 180 <= 59)
    by (apply Z.div_le_upper_bound; lia).
  split; [lia |]. split.
  - intros Hleft. replace rel with 0 by lia. reflexivity.
  - intros Hin. unfold collidepoint in Hin. rewrite Hw in Hin.
    assert (rel <= 179) by lia.
    assert (rel * 59 / 180 < 59) by (apply Z.div_lt_upper_bound; lia).
    lia.
Qed.

Lemma slider_speed_exact_witness :
  exists v,
    App.slider_speed App.slider_rect (900, 435) (store_with all_alive_3x3)
    = Return (v, store_with all_alive_3x3) /\
    v = 1 + Z.max 0 (Z.min (900 - x App.slider_rect) 180) * 59 / 180 /\
    App.min_speed <= v <= App.max_speed /\
    (900 <= x App.slider_rect -> v = App.min_speed) /\
    (collidepoint App.slider_rect (900, 435) = true -> v < App.max_speed).
Proof.
  apply (slider_speed_exact App.slider_rect (900, 435)
           (store_with all_alive_3x3)).
  reflexivity.
Defined.

(** * The main loop *)

Lemma cell_size_16 : Main.CELL_SIZE = 16.
Proof. reflexivity. Qed.

Lemma zeros_ok :
  shape_ok Main.ROWS Main.COLS
    (replicate (Z.to_nat Main.ROWS) (replicate (Z.to_nat Main.COLS) 0)) /\
  binary (replicate (Z.to_nat Main.ROWS) (replicate (Z.to_nat Main.COLS) 0)).
Proof.
  split.
  - apply shape_ok_zeros; unfold Main.ROWS, Main.COLS; lia.
  - apply Forall_replicate, Forall_replicate. left. reflexivity.
Qed.

(** Line 37 and line 326: a new array of dead cells. *)
Lemma main_grid_run (h : heap) :
  Main.grid h
  = Return (fresh (dom h),
            <[fresh (dom h) :=
                replicate (Z.to_nat Main.ROWS)
                          (replicate (Z.to_nat Main.COLS) 0)]> h).
Proof. reflexivity. Qed.

(** An edit keeps the grid a grid of dead and live cells. *)
Lemma toggle_cell_ok (h : heap) (grid : loc) (G : ndarray) (pos : Z * Z)
    (draw_mode : bool) :
  h !! grid = Some G -> shape_ok Main.ROWS Main.COLS G -> binary G ->
  exists G',
    Main.toggle_cell grid pos draw_mode h = Return (tt, <[grid := G']> h) /\
    shape_ok Main.ROWS Main.COLS G' /\ binary G'.
Proof.
  intros Hg HG Hbin.
  destruct (toggle_cell_cells Main.ROWS Main.COLS Main.CELL_SIZE h grid G pos
              draw_mode ltac:(rewrite cell_size_16; lia) Hg HG)
    as (G' & Hrun & HG' & Hcells).
  exists G'. split; [exact Hrun | split; [exact HG' |]].
  apply (binary_cells Main.ROWS Main.COLS); [exact HG' |].
  intros r c v Hr Hc Hv. rewrite (Hcells r c Hr Hc) in Hv.
  destruct (decide _).
  - injection Hv as <-. destruct draw_mode; auto.
  - exact (binary_get G r c v Hbin Hv).
Qed.

(** So does a generation. *)
Lemma update_grid_ok (h : heap) (grid : loc) (G : ndarray) (wrap : bool) :
  h !! grid = Some G -> shape_ok Main.ROWS Main.COLS G -> binary G ->
  exists new_grid G',
    Main.update_grid grid wrap h = Return (new_grid, <[new_grid := G']> h) /\
    shape_ok Main.ROWS Main.COLS G' /\ binary G'.
Proof.
  intros Hg HG Hbin.
  destruct (update_grid_spec Main.ROWS Main.COLS h grid G wrap Hg HG)
    as (new_grid & G' & Hrun & _ & HG' & Hcells).
  exists new_grid, G'. split; [exact Hrun | split; [exact HG' |]].
  apply (binary_cells Main.ROWS Main.COLS); [exact HG' |].
  intros r c v Hr Hc Hv. rewrite (Hcells r c Hr Hc) in Hv.
  injection Hv as <-. apply next_state_binary, alive_binary, Hbin.
Qed.

(** On a slider, the speed selected is one the loop accepts. *)
Lemma slider_speed_ok (slider : Rect) (pos : Z * Z) (h : heap) :
  width slider = 180 -> collidepoint slider pos = true ->
  exists v, App.slider_speed slider pos h = Return (v, h) /\
            App.min_speed <= v < App.max_speed.
Proof.
  intros Hw Hin. eexists. split; [apply slider_speed_value; exact Hw |].
  unfold collidepoint in Hin. rewrite Hw in Hin.
  unfold App.min_speed, App.max_speed.
  set (rel := Z.max 0 (Z.min (pos.1 - x slider) 180)).
  assert (0 <= rel <= 179) by lia.
  assert (0 <= rel * 59 / 180) by (apply Z.div_pos; lia).
  assert (rel * 59 / 180 < 59) by (apply Z.div_lt_upper_bound; lia).
  lia.
Qed.

(** The invariant does not look at the fields that only steer the loop. *)
Lemma session_ok_same (h : heap) (s s' : App.session) :
  session_ok h s ->
  App.grid s' = App.grid s -> App.cell_color s' = App.cell_color s ->
  App.speed s' = App.speed s ->
  (App.playing s' = true -> App.app_state s' = App.GAME) ->
  session_ok h s'.
Proof.
  intros (Hgrid & Hcolor & Hspeed & _) Hg Hc Hs Hplay.
  unfold session_ok. rewrite Hg, Hc, Hs. auto.
Qed.

(** A computation that returns and re-establishes the invariant. *)
Lemma ok_bind (m : M App.session) (k : App.session -> M App.session)
    (h : heap) :
  (exists s1 h1, m h = Return (s1, h1) /\ session_ok h1 s1) ->
  (forall s1 h1, session_ok h1 s1 ->
     exists s' h', k s1 h1 = Return (s', h') /\ session_ok h' s') ->
  exists s' h', bind m k h = Return (s', h') /\ session_ok h' s'.
Proof.
  intros (s1 & h1 & Hm & Hok1) Hk.
  rewrite (bind_Return _ _ _ _ _ Hm). apply Hk. exact Hok1.
Qed.

Lemma ok_ret (h : heap) (s s' : App.session) :
  session_ok h s ->
  App.grid s' = App.grid s -> App.cell_color s' = App.cell_color s ->
  App.speed s' = App.speed s ->
  (App.playing s' = true -> App.app_state s' = App.GAME) ->
  exists s'' h', ret s' h = Return (s'', h') /\ session_ok h' s''.
Proof.
  intros Hok Hg Hc Hs Hplay. exists s', h. split; [reflexivity |].
  exact (session_ok_same h s s' Hok Hg Hc Hs Hplay).
Qed.

(** The colour button. *)
Lemma color_click_ok (h : heap) (s : App.session) :
  session_ok h s ->
  exists s' h',
    (c <- App.next_color (App.cell_color s) ;; ret (App.set_cell_color c s)) h
    = Return (s', h') /\ session_ok h' s'.
Proof.
  intros (Hgrid & Hcolor & Hspeed & Hplay).
  destruct (next_color_found App.cell_colors _ h Hcolor) as (c & Hrun & Hc).
  exists (App.set_cell_color c s), h.
  unfold App.next_color. rewrite (bind_Return _ _ _ _ _ Hrun).
  split; [reflexivity |].
  split; [exact Hgrid | split; [exact Hc | split; [exact Hspeed | exact Hplay]]].
Qed.

(** A slider. *)
Lemma slider_click_ok (h : heap) (s : App.session) (slider : Rect)
    (pos : Z * Z) :
  session_ok h s -> width slider = 180 -> collidepoint slider pos = true ->
  exists s' h',
    (v <- App.slider_speed slider pos ;; ret (App.set_speed v s)) h
    = Return (s', h') /\ session_ok h' s'.
Proof.
  intros (Hgrid & Hcolor & Hspeed & Hplay) Hw Hin.
  destruct (slider_speed_ok slider pos h Hw Hin) as (v & Hrun & Hv).
  exists (App.set_speed v s), h. rewrite (bind_Return _ _ _ _ _ Hrun).
  split; [reflexivity |].
  split; [exact Hgrid | split; [exact Hcolor | split; [exact Hv | exact Hplay]]].
Qed.

(** An edit of the session's grid. *)
Lemma edit_ok (h : heap) (s s' : App.session) (pos : Z * Z) :
  session_ok h s ->
  App.grid s' = App.grid s -> App.cell_color s' = App.cell_color s ->
  App.speed s' = App.speed s ->
  (App.playing s' = true -> App.app_state s' = App.GAME) ->
  exists s'' h',
    (Main.toggle_cell (App.grid s) pos (App.draw_mode s) ;;; ret s') h
    = Return (s'', h') /\ session_ok h' s''.
Proof.
  intros ((G & Hg & HG & Hbin) & Hcolor & Hspeed & _) Hgrid Hc Hs Hplay.
  destruct (toggle_cell_ok h _ G pos (App.draw_mode s) Hg HG Hbin)
    as (G' & Hrun & HG' & Hbin').
  exists s', (<[App.grid s := G']> h). rewrite (bind_Return _ _ _ _ _ Hrun).
  split; [reflexivity |]. unfold session_ok. rewrite Hgrid, Hc, Hs.
  split; [| auto]. exists G'. rewrite lookup_insert_eq. auto.
Qed.

Lemma click_start_menu_ok (h : heap) (s : App.session) (pos : Z * Z) :
  session_ok h s ->
  exists s' h',
    App.click_start_menu pos s h = Return (s', h') /\ session_ok h' s'.
Proof.
  intros Hok. pose proof (proj2 (proj2 (proj2 Hok))) as Hplay.
  unfold App.click_start_menu.
  destruct (collidepoint App.start_menu_buttons_color pos);
    [apply color_click_ok; exact Hok |].
  destruct (collidepoint App.start_menu_buttons_wrap pos);
    [apply (ok_ret h s); auto |].
  destruct (collidepoint App.start_menu_buttons_start pos);
    [apply (ok_ret h s); auto |].
  destruct (collidepoint App.start_slider_rect pos) eqn:Hin;
    [apply slider_click_ok; auto |].
  apply (ok_ret h s); auto.
Qed.

Lemma click_game_ok (h : heap) (s : App.session) (pos : Z * Z) :
  session_ok h s ->
  exists s' h', App.click_game pos s h = Return (s', h') /\ session_ok h' s'.
Proof.
  intros Hok. pose proof (proj2 (proj2 (proj2 Hok))) as Hplay.
  unfold App.click_game. apply ok_bind.
  - destruct ((pos.1 <? Main.GRID_WIDTH) && negb (App.playing s)).
    + apply edit_ok; auto.
    + apply (ok_ret h s); auto.
  - clear h s Hok Hplay. intros s h Hok.
    pose proof (proj2 (proj2 (proj2 Hok))) as Hplay.
    destruct (negb (App.playing s)); [| apply (ok_ret h s); auto].
    destruct (collidepoint App.panel_buttons_color pos);
      [apply color_click_ok; exact Hok |].
    destruct (collidepoint App.panel_buttons_wrap pos);
      [apply (ok_ret h s); auto |].
    destruct (collidepoint App.panel_buttons_draw_toggle pos);
      [apply (ok_ret h s); auto |].
    destruct (collidepoint App.slider_rect pos) eqn:Hin;
      [apply slider_click_ok; auto |].
    apply (ok_ret h s); auto.
Qed.

Lemma mouse_motion_ok (h : heap) (s : App.session) (pos : Z * Z)
    (pressed : bool) :
  session_ok h s ->
  exists s' h',
    App.mouse_motion pos pressed s h = Return (s', h') /\ session_ok h' s'.
Proof.
  intros Hok. pose proof (proj2 (proj2 (proj2 Hok))) as Hplay.
  unfold App.mouse_motion.
  destruct (App.mouse_held s && negb (App.playing s) && _);
    [apply edit_ok; auto |].
  destruct (negb (App.playing s) && pressed); [| apply (ok_ret h s); auto].
  clear Hplay. destruct (App.app_state s).
  - destruct (collidepoint App.start_slider_rect pos) eqn:Hin;
      [apply slider_click_ok; auto |].
    apply (ok_ret h s); auto. exact (proj2 (proj2 (proj2 Hok))).
  - destruct (collidepoint App.slider_rect pos) eqn:Hin;
      [apply slider_click_ok; auto |].
    apply (ok_ret h s); auto. exact (proj2 (proj2 (proj2 Hok))).
Qed.

Lemma key_down_ok (h : heap) (s : App.session) (key : App.key_t) :
  session_ok h s ->
  exists s' h', App.key_down key s h = Return (s', h') /\ session_ok h' s'.
Proof.
  intros Hok. pose proof Hok as (Hgrid & Hcolor & Hspeed & Hplay).
  unfold App.key_down.
  destruct key, (App.app_state s) eqn:Hstate in |- *;
    try (apply (ok_ret h s); auto; fail).
  rewrite (bind_Return _ _ _ _ _ (main_grid_run h)).
  eexists _, _. split; [reflexivity |].
  split; [| split; [exact Hcolor | split; [exact Hspeed | exact Hplay]]].
  eexists. simpl. rewrite lookup_insert_eq.
  split; [reflexivity | exact zeros_ok].
Qed.

(** Every event is handled without an error and keeps the invariant. *)
Lemma handle_event_ok (h : heap) (s : App.session) (e : App.event) :
  session_ok h s ->
  exists s' h', App.handle_event e s h = Return (s', h') /\ session_ok h' s'.
Proof.
  intros Hok. pose proof (proj2 (proj2 (proj2 Hok))) as Hplay.
  destruct e as [| button pos | button | pos pressed | key |]; simpl.
  - apply (ok_ret h s); auto.
  - destruct (button =? 1); [| apply (ok_ret h s); auto].
    destruct (App.app_state s).
    + apply click_start_menu_ok; exact Hok.
    + apply click_game_ok; exact Hok.
  - destruct (button =? 1); apply (ok_ret h s); auto.
  - apply mouse_motion_ok; exact Hok.
  - apply key_down_ok; exact Hok.
  - apply (ok_ret h s); auto.
Qed.

Lemma list_index_store {A} `{EqDecision A} (xs : list A) (v : A) (i : Z)
    (h g : heap) :
  list_index xs v h = Return (i, g) -> g = h.
Proof.
  revert i. induction xs as [| a xs IH]; intros i; simpl.
  - discriminate.
  - destruct (decide (a = v)); [intros [= _ <-]; reflexivity |].
    unfold bind. destruct (list_index xs v h) as [[j g'] |] eqn:Hrun;
      [| discriminate].
    intros [= _ <-]. exact (IH j eq_refl).
Qed.

(** Neither the colour button nor a slider touches the store. *)
Lemma next_color_store (c c' : color) (h g : heap) :
  App.next_color c h = Return (c', g) -> g = h.
Proof.
  unfold App.next_color, next_color, bind.
  destruct (list_index _ c h) as [[i g'] |] eqn:Hindex; [| discriminate].
  apply list_index_store in Hindex. subst g'.
  unfold py_mod, list_getitem, ret, raise.
  destruct (_ =? 0); [discriminate |].
  destruct (np_index _ _); [| discriminate].
  destruct (_ !! _); [| discriminate].
  intros [= _ <-]. reflexivity.
Qed.

Lemma slider_speed_same_store (slider : Rect) (pos : Z * Z) (v : Z)
    (h g : heap) :
  App.slider_speed slider pos h = Return (v, g) -> g = h.
Proof.
  unfold App.slider_speed. rewrite slider_speed_store.
  destruct (slider_speed _ _ _ _ ∅) as [[? ?] |]; [| discriminate].
  intros [= _ <-]. reflexivity.
Qed.

(** Case analysis on every test and every call of an event handler. *)
Ltac handler_cases :=
  repeat match goal with
         | |- context [if ?c then _ else _] => destruct c eqn:?
         | |- context [match ?st with App.START_MENU => _ | App.GAME => _ end] =>
             destruct st eqn:?
         | |- context [match ?key with App.K_SPACE => _ | _ => _ end] =>
             destruct key eqn:?
         | |- context [match ?m with Return _ => _ | Raise _ => _ end] =>
             lazymatch m with
             | context [match _ with Return _ => _ | Raise _ => _ end] => fail
             | _ => destruct m as [[? ?] |] eqn:?
             end
         end.

Ltac same_store :=
  repeat match goal with
         | H : App.next_color _ _ = Return _ |- _ =>
             apply next_color_store in H; subst
         | H : App.slider_speed _ _ _ = Return _ |- _ =>
             apply slider_speed_same_store in H; subst
         end.

(** What an event can do to the fields that steer the loop: only [QUIT]
    touches [running], nothing leads back to the start menu, an event handled
    in the start menu does not touch the store, and the mouse does nothing
    while the simulation plays. *)
Lemma handle_event_fields (e : App.event) (s s' : App.session)
    (h h' : heap) :
  App.handle_event e s h = Return (s', h') ->
  App.running s' = match e with App.QUIT => false | _ => App.running s end /\
  (App.app_state s = App.GAME -> App.app_state s' = App.GAME) /\
  (App.app_state s' = App.START_MENU -> h' = h /\ App.grid s' = App.grid s) /\
  (App.app_state s = App.GAME -> App.playing s = true ->
   mouse_input e = true -> s' = s /\ h' = h).
Proof.
  unfold App.handle_event, App.click_start_menu, App.click_game,
    App.mouse_motion, App.key_down, bind, ret.
  destruct e; handler_cases; intros Heq; try discriminate Heq;
    injection Heq as <- <-; same_store; simpl in *;
    repeat split; try congruence; intros; simplify_eq; try congruence;
    auto;
    try (destruct (App.playing s); simpl in *;
         rewrite ?andb_false_r in *; congruence);
    match goal with
    | H : _ = _, Hb : _ && _ = true |- _ =>
        rewrite H in Hb; simpl in Hb; rewrite ?andb_false_r in Hb;
        discriminate Hb
    end.
Qed.

(** A loop over the events with an invariant on state and store. *)
Lemma for_var_invariant {A V} (I : V -> heap -> Prop) (xs : list A)
    (body : A -> V -> M V) :
  (forall x v h, I v h -> exists v' h', body x v h = Return (v', h') /\ I v' h') ->
  forall v h, I v h ->
    exists v' h', for_var xs v body h = Return (v', h') /\ I v' h'.
Proof.
  intros Hbody. induction xs as [| x xs IH]; intros v h HI; simpl.
  - exists v, h. split; [reflexivity | exact HI].
  - destruct (Hbody x v h HI) as (v1 & h1 & Hx & HI1).
    rewrite (bind_Return _ _ _ _ _ Hx). apply IH. exact HI1.
Qed.

Lemma for_var_app {A V} (xs ys : list A) (v : V) (body : A -> V -> M V)
    (h : heap) :
  for_var (xs ++ ys) v body h
  = bind (for_var xs v body) (fun v' => for_var ys v' body) h.
Proof.
  revert v h. induction xs as [| x xs IH]; intros v h; simpl.
  - reflexivity.
  - unfold bind. destruct (body x v h) as [[v1 h1] |]; [| reflexivity].
    rewrite IH. reflexivity.
Qed.

(** The events of a frame, together. *)
Lemma events_fields (events : list App.event) (s s' : App.session)
    (h h' : heap) :
  for_var events s (fun e s => App.handle_event e s) h = Return (s', h') ->
  (App.running s = false -> App.running s' = false) /\
  (App.QUIT ∈ events -> App.running s' = false) /\
  (App.app_state s = App.GAME -> App.app_state s' = App.GAME) /\
  (App.app_state s' = App.START_MENU -> h' = h /\ App.grid s' = App.grid s) /\
  (App.app_state s = App.GAME -> App.playing s = true ->
   Forall (fun e => mouse_input e = true) events -> s' = s /\ h' = h).
Proof.
  revert s h. induction events as [| e events IH]; intros s h; simpl.
  - intros [= <- <-]. repeat split; try tauto.
    intros Hq. inversion Hq.
  - unfold bind.
    destruct (App.handle_event e s h) as [[s1 h1] |] eqn:He; [| discriminate].
    intros Hrest.
    destruct (handle_event_fields e s s1 h h1 He)
      as (Hrun & Hgame & Hmenu & Hlock).
    destruct (IH s1 h1 Hrest) as (Hrun' & Hquit' & Hgame' & Hmenu' & Hlock').
    split; [| split; [| split; [| split]]].
    + intros Hoff. apply Hrun'. rewrite Hrun. destruct e; auto.
    + intros Hq. apply elem_of_cons in Hq as [<- | Hq]; [| auto].
      apply Hrun'. exact Hrun.
    + auto.
    + intros Hfinal. destruct (Hmenu' Hfinal) as [-> Hg].
      assert (Hs1 : App.app_state s1 = App.START_MENU).
      { destruct (App.app_state s1) eqn:H1; [reflexivity |].
        rewrite (Hgame' eq_refl) in Hfinal. discriminate. }
      destruct (Hmenu Hs1) as [-> Hg1]. split; congruence.
    + intros Hst Hplay Hmouse. apply Forall_cons in Hmouse as [He1 Hmouse].
      destruct (Hlock Hst Hplay He1) as [-> ->]. auto.
Qed.

Lemma events_ok (events : list App.event) (s : App.session) (h : heap) :
  session_ok h s ->
  exists s' h',
    for_var events s (fun e s => App.handle_event e s) h = Return (s', h') /\
    session_ok h' s'.
Proof.
  apply (for_var_invariant (fun s h => session_ok h s)).
  intros e s1 h1 Hok. apply handle_event_ok. exact Hok.
Qed.

(** What a frame draws: nothing modelled in the start menu, the cells and
    the grid lines during the game; the store is only read. *)
Lemma screen_ok (s : App.session) (h : heap) :
  session_ok h s ->
  exists screen,
    match App.app_state s with
    | App.START_MENU => ret []
    | App.GAME =>
        cells <- App.draw_cells (App.grid s) (App.cell_color s) ;;
        lines <- App.draw_grid ;;
        ret (cells ++ lines)
    end h = Return (screen, h).
Proof.
  intros ((G & Hg & HG & _) & _). destruct (App.app_state s).
  - eexists. reflexivity.
  - destruct (range3_multiples Main.GRID_WIDTH Main.CELL_SIZE h
                ltac:(rewrite cell_size_16; lia)) as (xs & Hxs & _).
    destruct (range3_multiples App.HEIGHT Main.CELL_SIZE h
                ltac:(rewrite cell_size_16; lia)) as (ys & Hys & _).
    eexists. unfold App.draw_cells.
    rewrite (bind_Return _ _ _ _ _
               (draw_cells_run Main.ROWS Main.COLS Main.CELL_SIZE h _ G _
                  Hg HG)).
    assert (Hlines : App.draw_grid h
              = Return (map (fun v => draw_line App.GRAY (v, 0) (v, App.HEIGHT)) xs ++
                        map (fun v => draw_line App.GRAY (0, v)
                                                (Main.GRID_WIDTH, v)) ys, h)).
    { unfold App.draw_grid, draw_grid.
      rewrite (bind_Return _ _ _ _ _ Hxs), (bind_Return _ _ _ _ _ Hys).
      reflexivity. }
    rewrite (bind_Return _ _ _ _ _ Hlines). reflexivity.
Qed.

(** The generation step at the end of a frame. *)
Lemma tick_ok (s : App.session) (h : heap) :
  session_ok h s ->
  exists s' h',
    match App.app_state s with
    | App.GAME =>
        if App.playing s then
          g <- Main.update_grid (App.grid s) (App.wrap_enabled s) ;;
          ret (App.set_grid g s)
        else ret s
    | App.START_MENU => ret s
    end h = Return (s', h') /\
    session_ok h' s' /\
    App.running s' = App.running s /\
    App.app_state s' = App.app_state s /\
    (App.app_state s = App.START_MENU -> s' = s /\ h' = h).
Proof.
  intros Hok. pose proof Hok as ((G & Hg & HG & Hbin) & Hcolor & Hspeed & Hplay).
  destruct (App.app_state s) eqn:Hstate.
  - exists s, h. split; [reflexivity |].
    split; [exact Hok |]. split; [reflexivity |].
    split; [exact Hstate | auto].
  - destruct (App.playing s) eqn:Hplaying.
    + destruct (update_grid_ok h _ G (App.wrap_enabled s) Hg HG Hbin)
        as (g & G' & Hrun & HG' & Hbin').
      rewrite (bind_Return _ _ _ _ _ Hrun). eexists _, _.
      split; [reflexivity |]. split; [| split; [| split]].
      * split; [| split; [exact Hcolor | split; [exact Hspeed |]]].
        -- exists G'. simpl. rewrite lookup_insert_eq. auto.
        -- intros _. exact Hstate.
      * reflexivity.
      * exact Hstate.
      * discriminate.
    + exists s, h. split; [reflexivity |].
      split; [exact Hok |]. split; [reflexivity |].
      split; [exact Hstate | discriminate].
Qed.

(** A frame returns and keeps the invariant. *)
Lemma frame_ok (events : list App.event) (s : App.session) (h : heap) :
  session_ok h s ->
  exists r h',
    App.frame events s h = Return (r, h') /\ session_ok h' r.2 /\
    (App.QUIT ∈ events -> App.running r.2 = false) /\
    (App.running s = false -> App.running r.2 = false) /\
    (App.app_state s = App.GAME -> App.app_state r.2 = App.GAME) /\
    (App.app_state r.2 = App.START_MENU ->
     h' = h /\ App.grid r.2 = App.grid s).
Proof.
  intros Hok. unfold App.frame.
  destruct (screen_ok s h Hok) as (screen & Hscreen).
  rewrite (bind_Return _ _ _ _ _ Hscreen).
  destruct (events_ok events s h Hok) as (s1 & h1 & Hevents & Hok1).
  rewrite (bind_Return _ _ _ _ _ Hevents).
  destruct (events_fields events s s1 h h1 Hevents)
    as (Hoff & Hquit & Hgame & Hmenu & _).
  destruct (tick_ok s1 h1 Hok1) as (s2 & h2 & Htick & Hok2 & Hrun & Hst & Hm).
  rewrite (bind_Return _ _ _ _ _ Htick).
  exists (screen, s2), h2. simpl. split; [reflexivity |].
  split; [exact Hok2 |]. rewrite Hrun, Hst.
  split; [exact Hquit | split; [exact Hoff | split; [exact Hgame |]]].
  intros Hfinal. destruct (Hm Hfinal) as [-> ->]. auto.
Qed.

(** The loop returns, keeps the invariant, never goes back to the start
    menu, and leaves the store alone as long as it is in the start menu. *)
Lemma run_ok (frames : list (list App.event)) (s : App.session) (h : heap) :
  session_ok h s ->
  exists s' h',
    App.run frames s h = Return (s', h') /\ session_ok h' s' /\
    (App.app_state s = App.GAME -> App.app_state s' = App.GAME) /\
    (App.app_state s' = App.START_MENU -> h' = h /\ App.grid s' = App.grid s).
Proof.
  revert s h. induction frames as [| events frames IH]; intros s h Hok; simpl.
  - exists s, h. auto.
  - destruct (App.running s); [| exists s, h; auto].
    destruct (frame_ok events s h Hok)
      as (r & h1 & Hframe & Hok1 & _ & _ & Hgame & Hmenu).
    rewrite (bind_Return _ _ _ _ _ Hframe).
    destruct (IH r.2 h1 Hok1) as (s' & h' & Hrun & Hok' & Hgame' & Hmenu').
    exists s', h'. split; [exact Hrun | split; [exact Hok' | split]].
    + auto.
    + intros Hfinal. destruct (Hmenu' Hfinal) as [-> Hg].
      assert (Hr : App.app_state r.2 = App.START_MENU).
      { destruct (App.app_state r.2) eqn:H1; [reflexivity |].
        rewrite (Hgame' eq_refl) in Hfinal. discriminate. }
      destruct (Hmenu Hr) as [-> Hg1]. split; congruence.
Qed.

Lemma initial_ok (h : heap) :
  exists s,
    App.initial h
    = Return (s, <[App.grid s :=
                     replicate (Z.to_nat Main.ROWS)
                               (replicate (Z.to_nat Main.COLS) 0)]> h) /\
    App.app_state s = App.START_MENU /\
    session_ok (<[App.grid s :=
                    replicate (Z.to_nat Main.ROWS)
                              (replicate (Z.to_nat Main.COLS) 0)]> h) s.
Proof.
  exists (App.mkSession (fresh (dom h)) App.GREEN 10 true true App.START_MENU
            false false true).
  unfold App.initial.
  rewrite (bind_Return _ _ _ _ _ (main_grid_run h)).
  split; [reflexivity |]. split; [reflexivity |].
  split; [| split; [| split]]; simpl.
  - eexists. rewrite lookup_insert_eq. split; [reflexivity | exact zeros_ok].
  - apply (bool_decide_unpack _). vm_compute. exact I.
  - unfold App.min_speed, App.max_speed. lia.
  - discriminate.
Qed.

(** X13.  The main loop never raises: started from the initial state of the
    program and fed any frames of any events, it returns, and in the state it
    ends in the grid is a 50 by 50 array of dead and live cells, the colour
    is one of the palette and the speed lies between [min_speed] and
    [max_speed - 1]. *)
Theorem run_never_raises (h : heap) (frames : list (list App.event)) :
  exists s h',
    (s0 <- App.initial ;; App.run frames s0) h = Return (s, h') /\
    session_ok h' s.
Proof.
  destruct (initial_ok h) as (s0 & Hinit & _ & Hok0).
  rewrite (bind_Return _ _ _ _ _ Hinit).
  destruct (run_ok frames s0 _ Hok0) as (s & h' & Hrun & Hok & _).
  exists s, h'. split; assumption.
Qed.

(** X14.  Once the game has started there is no way back to the start
    menu: from a state of the game, whatever the frames and events, the loop
    ends in a state of the game. *)
Theorem game_is_absorbing (h : heap) (s : App.session)
    (frames : list (list App.event)) :
  session_ok h s -> App.app_state s = App.GAME ->
  exists s' h',
    App.run frames s h = Return (s', h') /\ App.app_state s' = App.GAME.
Proof.
  intros Hok Hstate.
  destruct (run_ok frames s h Hok) as (s' & h' & Hrun & _ & Hgame & _).
  exists s', h'. split; [exact Hrun | exact (Hgame Hstate)].
Qed.

(** X15.  Nothing touches the grid before the game starts: if the loop,
    started from the initial state, is still in the start menu after some
    frames, the store is as the initial state left it, and the grid is the
    initial array of dead cells. *)
Theorem start_menu_keeps_grid (h : heap) (frames : list (list App.event)) :
  exists s0 h0 s h',
    App.initial h = Return (s0, h0) /\
    App.run frames s0 h0 = Return (s, h') /\
    (App.app_state s = App.START_MENU ->
     h' = h0 /\ App.grid s = App.grid s0 /\
     h' !! App.grid s
     = Some (replicate (Z.to_nat Main.ROWS)
                       (replicate (Z.to_nat Main.COLS) 0))).
Proof.
  destruct (initial_ok h) as (s0 & Hinit & _ & Hok0).
  destruct (run_ok frames s0 _ Hok0) as (s & h' & Hrun & _ & _ & Hmenu).
  eexists s0, _, s, h'. split; [exact Hinit | split; [exact Hrun |]].
  intros Hstate. destruct (Hmenu Hstate) as [-> Hg].
  split; [reflexivity | split; [exact Hg |]].
  rewrite Hg. apply lookup_insert_eq.
Qed.

Lemma bind_ext {A B} (m : M A) (k1 k2 : A -> M B) (h : heap) :
  (forall a h', k1 a h' = k2 a h') -> bind m k1 h = bind m k2 h.
Proof.
  intros Hk. unfold bind. destruct (m h) as [[a h'] |]; [apply Hk | reflexivity].
Qed.

(** While the simulation plays, an event of the mouse changes nothing. *)
Lemma mouse_locked (e : App.event) (s : App.session) (h : heap) :
  App.app_state s = App.GAME -> App.playing s = true ->
  mouse_input e = true ->
  App.handle_event e s h = Return (s, h).
Proof.
  intros Hstate Hplay Hmouse. destruct e; try discriminate Hmouse; simpl.
  - destruct (_ =? 1); [| reflexivity]. rewrite Hstate.
    unfold App.click_game. rewrite Hplay. simpl. rewrite andb_false_r.
    unfold bind, ret. rewrite Hplay. reflexivity.
  - unfold App.mouse_motion. rewrite Hplay. simpl. rewrite andb_false_r.
    reflexivity.
Qed.

(** X16.  Editing is locked while the simulation plays: in the game, with
    [playing] set, a frame whose events are all clicks and motions of the
    mouse (anywhere, with any button) does exactly what a frame without
    events does: grid, colour, speed, wrapping and mode are not changed by
    the mouse. *)
Theorem playing_ignores_mouse (events : list App.event) (s : App.session)
    (h : heap) :
  App.app_state s = App.GAME -> App.playing s = true ->
  Forall (fun e => mouse_input e = true) events ->
  App.frame events s h = App.frame [] s h.
Proof.
  intros Hstate Hplay Hmouse. unfold App.frame.
  apply bind_ext. intros screen h1.
  assert (Hevents : for_var events s (fun e s => App.handle_event e s) h1
                    = Return (s, h1)).
  { induction Hmouse as [| e events He _ IH]; [reflexivity |]. simpl.
    rewrite (bind_Return _ _ _ _ _ (mouse_locked e s h1 Hstate Hplay He)).
    exact IH. }
  rewrite (bind_Return _ _ _ _ _ Hevents). reflexivity.
Qed.

Lemma frame_running (events : list App.event) (s : App.session)
    (r : list draw_cmd * App.session) (h h' : heap) :
  App.frame events s h = Return (r, h') -> App.QUIT ∈ events ->
  App.running r.2 = false.
Proof.
  unfold App.frame, bind. intros Hframe Hquit.
  destruct (match App.app_state s with
            | App.START_MENU => ret []
            | App.GAME => _
            end h) as [[screen h1] |]; [| discriminate].
  destruct (for_var events s _ h1) as [[s1 h2] |] eqn:Hevents;
    [| discriminate].
  destruct (events_fields events s s1 h1 h2 Hevents) as (_ & Hoff & _).
  specialize (Hoff Hquit).
  destruct (App.app_state s1), (App.playing s1);
    unfold ret in Hframe; try (injection Hframe as <- _; exact Hoff).
  destruct (Main.update_grid _ _ h2) as [[g h3] |]; [| discriminate].
  injection Hframe as <- _. exact Hoff.
Qed.

(** X17.  [QUIT] ends the loop at the end of its frame: the frame in which
    the event arrives is completed (the events after it are handled and the
    generation is advanced), and no later frame is run. *)
Theorem quit_ends_loop (events : list App.event)
    (frames : list (list App.event)) (s : App.session) (h : heap) :
  App.running s = true -> App.QUIT ∈ events ->
  App.run (events :: frames) s h = (r <- App.frame events s ;; ret r.2) h.
Proof.
  intros Hrunning Hquit. simpl. rewrite Hrunning. unfold bind.
  destruct (App.frame events s h) as [[r h1] |] eqn:Hframe; [| reflexivity].
  pose proof (frame_running events s r h h1 Hframe Hquit) as Hoff.
  destruct frames; simpl; [reflexivity |]. rewrite Hoff. reflexivity.
Qed.

Lemma zeros_only_live :
  only_live Main.ROWS Main.COLS []
    (replicate (Z.to_nat Main.ROWS) (replicate (Z.to_nat Main.COLS) 0)).
Proof.
  split; [exact (proj1 zeros_ok) |].
  intros row col Hr Hc. rewrite nd_get_zeros by assumption. reflexivity.
Qed.

(** X18.  The R key clears the board, also while the simulation plays: in
    the game, a frame whose last event is the R key ends with a grid of 50
    by 50 dead cells, whatever the earlier events of the frame did and
    whether or not a generation is computed at the end of the frame. *)
Theorem reset_key_clears (events : list App.event) (s : App.session)
    (h : heap) :
  session_ok h s -> App.app_state s = App.GAME ->
  exists r h',
    App.frame (events ++ [App.KEYDOWN App.K_r]) s h = Return (r, h') /\
    h' !! App.grid r.2
    = Some (replicate (Z.to_nat Main.ROWS) (replicate (Z.to_nat Main.COLS) 0)).
Proof.
  intros Hok Hstate. unfold App.frame.
  destruct (screen_ok s h Hok) as (screen & Hscreen).
  rewrite (bind_Return _ _ _ _ _ Hscreen).
  destruct (events_ok events s h Hok) as (s1 & h1 & Hevents & Hok1).
  destruct (events_fields events s s1 h h1 Hevents) as (_ & _ & Hgame & _).
  specialize (Hgame Hstate).
  set (zeros := replicate (Z.to_nat Main.ROWS)
                          (replicate (Z.to_nat Main.COLS) 0)).
  assert (Hall : for_var (events ++ [App.KEYDOWN App.K_r]) s
                   (fun e s => App.handle_event e s) h
                 = Return (App.set_grid (fresh (dom h1)) s1,
                           <[fresh (dom h1) := zeros]> h1)).
  { rewrite for_var_app, (bind_Return _ _ _ _ _ Hevents). simpl.
    unfold App.key_down. rewrite Hgame.
    unfold bind. rewrite main_grid_run. reflexivity. }
  rewrite (bind_Return _ _ _ _ _ Hall). simpl. rewrite Hgame.
  destruct (App.playing s1).
  - destruct (update_grid_spec Main.ROWS Main.COLS
                (<[fresh (dom h1) := zeros]> h1) (fresh (dom h1)) zeros
                (App.wrap_enabled s1) (lookup_insert_eq _ _ _)
                (proj1 zeros_ok))
      as (g & G' & Hrun & _ & HG' & Hcells).
    assert (G' = zeros) as ->.
    { apply (ndarray_ext Main.ROWS Main.COLS);
        [exact HG' | exact (proj1 zeros_ok) |].
      intros r c Hr Hc. rewrite (Hcells r c Hr Hc).
      rewrite (next_cell_all_dead Main.ROWS Main.COLS zeros _ r c
                 zeros_only_live Hr Hc).
      symmetry. apply nd_get_zeros; assumption. }
    assert (Htick :
              (g0 <- Main.update_grid (fresh (dom h1)) (App.wrap_enabled s1) ;;
               ret (App.set_grid g0 (App.set_grid (fresh (dom h1)) s1)))
                (<[fresh (dom h1) := zeros]> h1)
              = Return (App.set_grid g (App.set_grid (fresh (dom h1)) s1),
                        <[g := zeros]> (<[fresh (dom h1) := zeros]> h1))).
    { unfold Main.update_grid. rewrite (bind_Return _ _ _ _ _ Hrun).
      reflexivity. }
    rewrite (bind_Return _ _ _ _ _ Htick).
    eexists _, _. split; [reflexivity |]. simpl. apply lookup_insert_eq.
  - eexists _, _. split; [reflexivity |]. simpl. apply lookup_insert_eq.
Qed.

Lemma playing_session_ok :
  session_ok (store_with (replicate 50 (replicate 50 0))) playing_session.
Proof.
  split; [| split; [| split]].
  - eexists. split; [reflexivity |]. exact zeros_ok.
  - apply (bool_decide_unpack _). vm_compute. exact I.
  - unfold App.min_speed, App.max_speed. simpl. lia.
  - reflexivity.
Qed.

Lemma game_is_absorbing_witness :
  exists s' h',
    App.run [[App.KEYDOWN App.K_SPACE]; [App.QUIT]] playing_session
      (store_with (replicate 50 (replicate 50 0)))
    = Return (s', h') /\ App.app_state s' = App.GAME.
Proof.
  apply (game_is_absorbing (store_with (replicate 50 (replicate 50 0)))
           playing_session).
  - exact playing_session_ok.
  - reflexivity.
Defined.

Lemma playing_ignores_mouse_witness :
  App.frame [App.MOUSEBUTTONDOWN 1 (5, 5); App.MOUSEMOTION (30, 40) true]
    playing_session (store_with (replicate 50 (replicate 50 0)))
  = App.frame [] playing_session (store_with (replicate 50 (replicate 50 0))).
Proof.
  apply (playing_ignores_mouse
           [App.MOUSEBUTTONDOWN 1 (5, 5); App.MOUSEMOTION (30, 40) true]
           playing_session (store_with (replicate 50 (replicate 50 0)))).
  - reflexivity.
  - reflexivity.
  - repeat constructor.
Defined.

Lemma quit_ends_loop_witness :
  App.run ([App.QUIT; App.KEYDOWN App.K_SPACE] :: [[App.KEYDOWN App.K_r]])
    playing_session (store_with (replicate 50 (replicate 50 0)))
  = (r <- App.frame [App.QUIT; App.KEYDOWN App.K_SPACE] playing_session ;;
     ret r.2) (store_with (replicate 50 (replicate 50 0))).
Proof.
  apply (quit_ends_loop [App.QUIT; App.KEYDOWN App.K_SPACE]
           [[App.KEYDOWN App.K_r]] playing_session
           (store_with (replicate 50 (replicate 50 0)))).
  - reflexivity.
  - left.
Defined.

Lemma reset_key_clears_witness :
  exists r h',
    App.frame ([App.KEYDOWN App.K_SPACE] ++ [App.KEYDOWN App.K_r])
      playing_session (store_with (replicate 50 (replicate 50 0)))
    = Return (r, h') /\
    h' !! App.grid r.2
    = Some (replicate (Z.to_nat Main.ROWS) (replicate (Z.to_nat Main.COLS) 0)).
Proof.
  apply (reset_key_clears [App.KEYDOWN App.K_SPACE] playing_session
           (store_with (replicate 50 (replicate 50 0)))).
  - exact playing_session_ok.
  - reflexivity.
Defined.

(** The board lies left of every button and slider of the side panel. *)
Lemma board_misses_panel (pos : Z * Z) :
  pos.1 < Main.GRID_WIDTH ->
  collidepoint App.panel_buttons_color pos = false /\
  collidepoint App.panel_buttons_wrap pos = false /\
  collidepoint App.panel_buttons_draw_toggle pos = false /\
  collidepoint App.slider_rect pos = false.
Proof.
  intros Hx. unfold collidepoint. simpl.
  assert ((Main.GRID_WIDTH + 35 <=? pos.1) = false) as -> by lia.
  repeat split; reflexivity.
Qed.

(** X19.  A click edits the cell under the cursor: in the game, with the
    simulation paused, a left click at a pixel of the board (the 800 by 800
    area left of the side panel) hits a cell of the grid, writes the state of
    the current mode (1 when drawing, 0 when erasing) into that cell and into
    no other, starts a drag, and changes nothing else of the state. *)
Theorem click_edits_cell (s : App.session) (h : heap) (pos : Z * Z) :
  session_ok h s -> App.app_state s = App.GAME -> App.playing s = false ->
  0 <= pos.1 < Main.GRID_WIDTH -> 0 <= pos.2 < App.HEIGHT ->
  exists G G',
    h !! App.grid s = Some G /\
    App.handle_event (App.MOUSEBUTTONDOWN 1 pos) s h
    = Return (App.set_mouse_held true s, <[App.grid s := G']> h) /\
    (0 <= pos.2 / Main.CELL_SIZE < Main.ROWS /\
     0 <= pos.1 / Main.CELL_SIZE < Main.COLS) /\
    shape_ok Main.ROWS Main.COLS G' /\
    forall r c, 0 <= r < Main.ROWS -> 0 <= c < Main.COLS ->
      nd_get G' r c
      = if decide ((r, c) = (pos.2 / Main.CELL_SIZE, pos.1 / Main.CELL_SIZE))
        then Some (if App.draw_mode s then 1 else 0)
        else nd_get G r c.
Proof.
  intros ((G & Hg & HG & _) & _) Hstate Hpaused Hx Hy.
  destruct (toggle_cell_cells Main.ROWS Main.COLS Main.CELL_SIZE h _ G pos
              (App.draw_mode s) ltac:(rewrite cell_size_16; lia) Hg HG)
    as (G' & Hrun & HG' & Hcells).
  exists G, G'. split; [exact Hg |].
  split; [| split; [| split; [exact HG' | exact Hcells]]].
  - simpl. rewrite Hstate. unfold App.click_game. rewrite Hpaused.
    rewrite (proj2 (Z.ltb_lt _ _) (proj2 Hx)). simpl.
    assert (Hedit : (Main.toggle_cell (App.grid s) pos (App.draw_mode s) ;;;
                     ret (App.set_mouse_held true s)) h
                    = Return (App.set_mouse_held true s,
                              <[App.grid s := G']> h))
      by (unfold Main.toggle_cell; rewrite (bind_Return _ _ _ _ _ Hrun);
          reflexivity).
    rewrite (bind_Return _ _ _ _ _ Hedit). simpl. rewrite Hpaused. simpl.
    destruct (board_misses_panel pos (proj2 Hx)) as (-> & -> & -> & ->).
    reflexivity.
  - rewrite cell_size_16. unfold Main.ROWS, Main.COLS.
    unfold Main.GRID_WIDTH in Hx. unfold App.HEIGHT in Hy.
    split; split;
      first [apply Z.div_pos; lia | apply Z.div_lt_upper_bound; lia].
Qed.


Lemma click_edits_cell_witness :
  exists G G',
    store_with (replicate 50 (replicate 50 0))
      !! App.grid (App.set_playing false playing_session) = Some G /\
    App.handle_event (App.MOUSEBUTTONDOWN 1 (40, 20))
      (App.set_playing false playing_session)
      (store_with (replicate 50 (replicate 50 0)))
    = Return (App.set_mouse_held true (App.set_playing false playing_session),
              <[App.grid (App.set_playing false playing_session) := G']>
                (store_with (replicate 50 (replicate 50 0)))) /\
    (0 <= 20 / Main.CELL_SIZE < Main.ROWS /\
     0 <= 40 / Main.CELL_SIZE < Main.COLS) /\
    shape_ok Main.ROWS Main.COLS G' /\
    forall r c, 0 <= r < Main.ROWS -> 0 <= c < Main.COLS ->
      nd_get G' r c
      = if decide ((r, c) = (20 / Main.CELL_SIZE, 40 / Main.CELL_SIZE))
        then Some (if App.draw_mode (App.set_playing false playing_session)
                   then 1 else 0)
        else nd_get G r c.
Proof.
  apply (click_edits_cell (App.set_playing false playing_session)
           (store_with (replicate 50 (replicate 50 0))) (40, 20)).
  - apply (session_ok_same _ playing_session); try reflexivity.
    exact playing_session_ok.
  - reflexivity.
  - reflexivity.
  - simpl. unfold Main.GRID_WIDTH. lia.
  - simpl. unfold App.HEIGHT. lia.
Defined.

